(** * HubSpot -> Supabase incremental sync: a shallow embedding

  This development embeds [export_hubspot_to_supabase.py] and states the
  properties of its incremental synchronisation protocol:
  watermark store, paginated fetch, schema reconciliation, record
  flattening and batched upsert with row-by-row fallback.

  Conventions of the embedding:
  - a Python [str] is a [string] of characters of code below 128: the
    embedding covers ASCII text, where [str.isalnum] and [str.lower] act
    character by character as defined below. A name with a character of
    code 128 or above is outside the embedding, and the theorems about
    the characters of a column name assume [PyStr.is_ascii];
  - a Python [dict] with string keys is a [gmap string _], a [set] of
    strings a [gset string];
  - a [datetime] is a number of microseconds since the epoch ([Z]);
  - the outside world (HubSpot, Supabase, the file system, the clock) is
    an explicit state [World] that the program threads; every call that
    leaves the process is recorded in its [trace];
  - a computation gives [Ok] or [Raise], as Python returns or raises; it
    gives no result at all when the scripted replies of HubSpot run out
    while the fetch loop still asks for a page (the loop has no bound on
    its retries after a 429). *)

From Stdlib Require Import ZArith Ascii String List Lia.
From stdpp Require Import base tactics option list gmap strings fin_maps pretty.

Local Open Scope string_scope.
Local Open Scope Z_scope.

(** ** Strings *)

Module PyStr.

(** A character of code below 128. *)
Definition is_ascii_char (c : ascii) : bool := (nat_of_ascii c <? 128)%nat.

(** A string of ASCII characters: the strings for which the functions
    below are those of Python. *)
Fixpoint is_ascii (s : string) : bool :=
  match s with
  | EmptyString => true
  | String c s' => is_ascii_char c && is_ascii s'
  end.

(** [c.isalnum()] for an ASCII character [c]: a digit or a letter. Python
    also answers [True] for letters and digits outside ASCII; those are
    outside the embedding. *)
Definition isalnum (c : ascii) : bool :=
  let n := nat_of_ascii c in
  ((48 <=? n) && (n <=? 57) || (65 <=? n) && (n <=? 90)
   || (97 <=? n) && (n <=? 122))%nat.

(** One character of [s.lower()] for an ASCII string [s]: on ASCII,
    [str.lower] acts on each character on its own and keeps the length
    (outside ASCII it need not). *)
Definition lower_char (c : ascii) : ascii :=
  let n := nat_of_ascii c in
  if ((65 <=? n) && (n <=? 90))%nat then ascii_of_nat (n + 32) else c.

(** [s.lower()] for an ASCII string. *)
Fixpoint lower (s : string) : string :=
  match s with
  | EmptyString => EmptyString
  | String c s' => String (lower_char c) (lower s')
  end.

(** [''.join(f(c) for c in s)] where [f] yields one character. *)
Fixpoint join_chars (f : ascii -> ascii) (s : string) : string :=
  match s with
  | EmptyString => EmptyString
  | String c s' => String (f c) (join_chars f s')
  end.

(** [sep.join(parts)] *)
Fixpoint join (sep : string) (parts : list string) : string :=
  match parts with
  | [] => EmptyString
  | [p] => p
  | p :: rest => p ++ sep ++ join sep rest
  end.

(** The double-quote character, as a one-character string. *)
Definition dquote : string := String (ascii_of_nat 34) EmptyString.

(** A line feed, as a one-character string. *)
Definition nl : string := String (ascii_of_nat 10) EmptyString.

End PyStr.

(** ** Column-name sanitisation

  The source writes the same expression twice,
  [''.join(c if c.isalnum() else '_' for c in prop).lower()],
  once in [create_supabase_table] and once in [export_object_type]. *)

(** [create_supabase_table], the [col_name] of the property loop. *)
Definition col_name_create (prop : string) : string :=
  PyStr.lower (PyStr.join_chars (fun c => if PyStr.isalnum c then c else "_"%char) prop).

(** [export_object_type], the [col_name] of the flattening loop. *)
Definition col_name_flatten (prop : string) : string :=
  PyStr.lower (PyStr.join_chars (fun c => if PyStr.isalnum c then c else "_"%char) prop).

(** The rule in the specification's words: replace every non-alphanumeric
  character by an underscore, then lower-case the result. *)
Module SanitizeSpec.

Definition replace_non_alnum (c : ascii) : ascii :=
  if PyStr.isalnum c then c else "_"%char.

Fixpoint sanitize (name : string) : string :=
  match name with
  | EmptyString => EmptyString
  | String c rest =>
      String (PyStr.lower_char (replace_non_alnum c)) (sanitize rest)
  end.

(** A character of a sanitised name: a lower-case letter, a digit or
    an underscore. *)
Definition column_char (c : ascii) : bool :=
  let n := nat_of_ascii c in
  ((48 <=? n) && (n <=? 57) || (97 <=? n) && (n <=? 122) || (n =? 95))%nat.

Fixpoint all_chars (p : ascii -> bool) (s : string) : bool :=
  match s with
  | EmptyString => true
  | String c rest => p c && all_chars p rest
  end.

End SanitizeSpec.


(** ** Data model *)

(** The values met in a HubSpot record and in a destination row: JSON
    null, strings, booleans and integers (HubSpot sends property values
    as strings or null). *)
Inductive pyval :=
| PNone
| PStr (s : string)
| PBool (b : bool)
| PInt (n : Z).

#[global] Instance pyval_eq_dec : EqDecision pyval.
Proof. solve_decision. Defined.

(** [str(v)] *)
Definition py_str (v : pyval) : string :=
  match v with
  | PNone => "None"
  | PStr s => s
  | PBool true => "True"
  | PBool false => "False"
  | PInt n => pretty n
  end.

(** An element of [results]: the keys of the JSON object that the exporter
    reads. [None] stands for a key that is not in the object. The
    [properties] of an object, when present, is a JSON object, as HubSpot
    sends it; an element whose [properties] is null or not an object is
    outside this type. *)
Record SourceObj := {
  o_id : option pyval;
  o_createdAt : option pyval;
  o_updatedAt : option pyval;
  o_archived : option pyval;
  o_properties : option (gmap string pyval)
}.

(** A value of a destination row: a scalar, or the property map kept under
    [raw_properties]. *)
Inductive cell :=
| Scalar (v : pyval)
| Dict (m : gmap string pyval).

(** A destination row, the Python [record] dict. *)
Abbreviation Row := (gmap string cell).

(** [d.get(k)] on a property map and on a row: [None] when the key is
    missing. *)
Definition props_get (props : gmap string pyval) (k : string) : pyval :=
  default PNone (props !! k).

Definition record_get (record : Row) (k : string) : cell :=
  default (Scalar PNone) (record !! k).

(** A row of the [sync_state] table. [last_sync_time] is [None] when the
    stored text is one that [datetime.fromisoformat] rejects; [sync_cursor]
    is [None] for SQL NULL. *)
Record SyncRow := {
  last_sync_time : option Z;
  sync_cursor : option string;
  updated_at : Z
}.

(** One day, [timedelta(days=1)], in microseconds. *)
Definition one_day : Z := 86400 * 1000000.

(** ** The outside world *)

(** The [Retry-After] header of a response: absent, an integer literal, or
    a text that [int] rejects. *)
Inductive RetryAfter :=
| NoRetryAfter
| RetryAfterInt (n : Z)
| RetryAfterText.

(** The body of a page of [/objects/<type>]: [paging_next] is [None] when
    [paging.next] is missing, [Some None] when it has no [after]. *)
Record Page := {
  results : list SourceObj;
  paging_next : option (option string)
}.

(** What one [requests.get] gives: an exception of the transport, or a
    response with its status, its [Retry-After] header and its body
    ([None] when [response.json()] raises). *)
Inductive HttpReply :=
| ConnectionError
| Response (status : Z) (retry_after : RetryAfter) (body : option Page).

Inductive Exn :=
| KeyError
| ValueError
| ZeroDivisionError
| OSError
| APIError
| RequestException
| JSONDecodeError.

#[global] Instance Exn_eq_dec : EqDecision Exn.
Proof. solve_decision. Defined.

#[global] Instance cell_eq_dec : EqDecision cell.
Proof. solve_decision. Defined.

(** Console and log lines. *)
Inductive Msg :=
| MsgErrProperties (object_type : string)
| MsgWarnLastSync
| MsgErrUpdateState
| MsgErrCreateState
| MsgFetching (object_type : string)
| MsgInvalidToken
| MsgHttpError (object_type : string) (status : Z)
| MsgRateLimit (retry_after : Z)
| MsgFetched (batch total : nat)
| MsgFetchException (object_type : string)
| MsgPleaseExecute (table_name create_sql : string)
| MsgSqlSaved (sql_filename : string)
| MsgLastSync (object_type : string) (t : Z)
| MsgNoProperties (object_type : string)
| MsgFoundProperties (object_type : string) (n : nat)
| MsgTableExists (table_name : string)
| MsgNoObjects (object_type : string)
| MsgErrRecord (object_type : string) (id : pyval)
| MsgNoRecords (object_type : string)
| MsgBatchOk (batch_no total_batches size : nat)
| MsgBatchErr (batch_no total_batches : nat)
| MsgRowErr (idx : nat) (hubspot_id : cell)
| MsgFallbackCount (success_count attempted : nat)
| MsgProcessing (object_type : string)
| MsgProcessed (object_type : string)
| MsgErrProcessing (object_type : string) (e : Exn)
| MsgSyncStart
| MsgSyncCompleted.

#[global] Instance Msg_eq_dec : EqDecision Msg.
Proof. solve_decision. Defined.

(** The calls that leave the process, with their outcome. In [EvHttpGet],
    [since] is the datetime [last_sync_time] from which the request
    computes the lower bound of its filter,
    [int(last_sync_time.timestamp() * 1000)]; that product is taken in
    floating point, so the event records the datetime and not the number
    of milliseconds sent. *)
Inductive Event :=
| EvRpc (ok : bool)
| EvSelectState (object_type : string) (ok : bool)
| EvUpsertState (object_type : string) (row : SyncRow) (ok : bool)
| EvGetProperties (object_type : string) (ok : bool)
| EvProbe (table_name : string) (found : bool)
| EvWriteFile (filename content : string) (ok : bool)
| EvHttpGet (object_type : string) (limit : Z) (properties : option string)
    (after : option string) (since : option Z) (reply : HttpReply)
| EvSleep (seconds : Z)
| EvUpsert (table_name : string) (rows : list Row) (ok : bool)
| EvOut (m : Msg).

(** The state of the world. [faults] scripts the upcoming Supabase and
    file-system calls ([true]: the call raises; past its end no call
    raises); [hubspot] scripts the replies to the upcoming page requests. *)
Record World := {
  clock : Z;
  faults : list bool;
  hubspot : list HttpReply;
  catalog : gmap string (list string);
  sync_state : gmap string SyncRow;
  tables : gset string;
  files : gmap string string;
  trace : list Event
}.

Definition set_clock (t : Z) (w : World) : World :=
  {| clock := t; faults := faults w; hubspot := hubspot w;
     catalog := catalog w; sync_state := sync_state w; tables := tables w;
     files := files w; trace := trace w |}.

Definition set_faults (fs : list bool) (w : World) : World :=
  {| clock := clock w; faults := fs; hubspot := hubspot w;
     catalog := catalog w; sync_state := sync_state w; tables := tables w;
     files := files w; trace := trace w |}.

Definition set_hubspot (rs : list HttpReply) (w : World) : World :=
  {| clock := clock w; faults := faults w; hubspot := rs;
     catalog := catalog w; sync_state := sync_state w; tables := tables w;
     files := files w; trace := trace w |}.

Definition set_sync_state (st : gmap string SyncRow) (w : World) : World :=
  {| clock := clock w; faults := faults w; hubspot := hubspot w;
     catalog := catalog w; sync_state := st; tables := tables w;
     files := files w; trace := trace w |}.

Definition set_files (fs : gmap string string) (w : World) : World :=
  {| clock := clock w; faults := faults w; hubspot := hubspot w;
     catalog := catalog w; sync_state := sync_state w; tables := tables w;
     files := fs; trace := trace w |}.

Definition set_trace (tr : list Event) (w : World) : World :=
  {| clock := clock w; faults := faults w; hubspot := hubspot w;
     catalog := catalog w; sync_state := sync_state w; tables := tables w;
     files := files w; trace := tr |}.

(** ** The monad of the program: state, exceptions, and no result when the
    script of replies runs out before the fetch loop ends. *)

Inductive Res (A : Type) :=
| Ok (a : A)
| Raise (e : Exn).

Arguments Ok {A} a.
Arguments Raise {A} e.

Definition M (A : Type) : Type := World -> option (Res A * World).

Definition ret {A} (a : A) : M A := fun w => Some (Ok a, w).

Definition raise {A} (e : Exn) : M A := fun w => Some (Raise e, w).

Definition diverge {A} : M A := fun _ => None.

Definition bind {A B} (m : M A) (k : A -> M B) : M B :=
  fun w =>
    match m w with
    | None => None
    | Some (Ok a, w') => k a w'
    | Some (Raise e, w') => Some (Raise e, w')
    end.

(** [try: m except Exception as e: h e] *)
Definition try_except {A} (m : M A) (h : Exn -> M A) : M A :=
  fun w =>
    match m w with
    | None => None
    | Some (Ok a, w') => Some (Ok a, w')
    | Some (Raise e, w') => h e w'
    end.

#[global] Instance M_ret : MRet M := @ret.
#[global] Instance M_bind : MBind M := fun A B k m => bind m k.

Definition emit (e : Event) : M unit :=
  fun w => Some (Ok tt, set_trace (trace w ++ [e]) w).

Definition out (m : Msg) : M unit := emit (EvOut m).

(** Reading and updating the state. *)
Definition gets {A} (f : World -> A) : M A := fun w => Some (Ok (f w), w).

Definition modify (f : World -> World) : M unit := fun w => Some (Ok tt, f w).

(** [datetime.now(timezone.utc)] *)
Definition now : M Z := gets clock.

(** The next entry of the fault script. *)
Definition pop_fault : M bool :=
  fun w =>
    match faults w with
    | [] => Some (Ok false, w)
    | f :: fs => Some (Ok f, set_faults fs w)
    end.

(** [for x in l: body x] *)
Fixpoint for_each {A} (l : list A) (body : A -> M unit) : M unit :=
  match l with
  | [] => ret tt
  | x :: rest => body x ;; for_each rest body
  end.

(** A [for] loop that updates one local variable. *)
Fixpoint for_fold {A S} (l : list A) (body : S -> A -> M S) (s : S) : M S :=
  match l with
  | [] => ret s
  | x :: rest => s' ← body s x; for_fold rest body s'
  end.

(** ** The client libraries *)

(** [supabase.rpc('pg_execute', ...).execute()] *)
Definition supabase_rpc : M unit :=
  f ← pop_fault;
  emit (EvRpc (negb f));;
  if f : bool then raise APIError else ret tt.

(** [supabase.table('sync_state').select('*').eq('object_type', t)
    .order('last_sync_time', desc=True).limit(1).execute()], its [data]. *)
Definition sync_state_select (object_type : string) : M (list SyncRow) :=
  f ← pop_fault;
  emit (EvSelectState object_type (negb f));;
  if f : bool then raise APIError
  else gets (fun w => option_list (sync_state w !! object_type)).

(** [supabase.table('sync_state').upsert(sync_data).execute()]; the store
    keeps one row per object type. *)
Definition sync_state_upsert (object_type : string) (row : SyncRow) : M unit :=
  f ← pop_fault;
  emit (EvUpsertState object_type row (negb f));;
  if f : bool then raise APIError
  else modify (fun w => set_sync_state (<[object_type := row]> (sync_state w)) w).

(** [supabase.table(t).select("count", count='exact').limit(1).execute()]:
    raises when the table does not exist, or when the call fails. *)
Definition table_probe (table_name : string) : M unit :=
  f ← pop_fault;
  existing ← gets tables;
  let found := negb f && bool_decide (table_name ∈ existing) in
  emit (EvProbe table_name found);;
  if found then ret tt else raise APIError.

(** [supabase.table(t).upsert(rows).execute()] *)
Definition table_upsert (table_name : string) (rows : list Row) : M unit :=
  f ← pop_fault;
  emit (EvUpsert table_name rows (negb f));;
  if f : bool then raise APIError else ret tt.

(** [with open(name, 'w') as f: f.write(content)] *)
Definition file_write (filename content : string) : M unit :=
  f ← pop_fault;
  emit (EvWriteFile filename content (negb f));;
  if f : bool then raise OSError
  else modify (fun w => set_files (<[filename := content]> (files w)) w).

(** [requests.get(f'{BASE_URL}/properties/{object_type}')] followed by
    [raise_for_status] and the extraction of the names. *)
Definition properties_get (object_type : string) : M (list string) :=
  f ← pop_fault;
  emit (EvGetProperties object_type (negb f));;
  if f : bool then raise RequestException
  else gets (fun w => default [] (catalog w !! object_type)).

(** [requests.get(f'{BASE_URL}/objects/{object_type}', params=params)]:
    the next reply of the script. *)
Definition requests_get (object_type : string) (limit : Z)
    (properties after : option string) (since : option Z)
  : M (Z * RetryAfter * option Page) :=
  fun w =>
    match hubspot w with
    | [] => None
    | r :: rs =>
        let w' :=
          set_trace
            (trace w ++ [EvHttpGet object_type limit properties after since r])
            (set_hubspot rs w) in
        match r with
        | ConnectionError => Some (Raise RequestException, w')
        | Response status retry_after body =>
            Some (Ok (status, retry_after, body), w')
        end
    end.

(** [time.sleep(seconds)] *)
Definition sleep (seconds : Z) : M unit :=
  if seconds <? 0 then raise ValueError
  else
    emit (EvSleep seconds);;
    modify (fun w => set_clock (clock w + seconds * 1000000) w).

(** ** Watermark store *)

Definition get_all_properties (object_type : string) : M (list string) :=
  try_except
    (properties_get object_type)
    (fun e => out (MsgErrProperties object_type);; ret []).

Definition get_last_sync_time (object_type : string) : M (Z * option string) :=
  r ← try_except
        (data ← sync_state_select object_type;
         match data with
         | last_sync :: _ =>
             match last_sync_time last_sync with
             | Some t => ret (Some (t, sync_cursor last_sync))
             | None => raise ValueError
             end
         | [] => ret None
         end)
        (fun e => out MsgWarnLastSync;; ret None);
  match r with
  | Some found => ret found
  | None =>
      (* Default to 24 hours ago if no previous sync *)
      t ← now;
      ret (t - one_day, Some EmptyString)
  end.

Definition update_sync_state (object_type : string) (sync_time : Z)
    (cursor : string) : M unit :=
  try_except
    (t ← now;
     let sync_data :=
       {| last_sync_time := Some sync_time;
          sync_cursor := Some cursor;
          updated_at := t |} in
     sync_state_upsert object_type sync_data)
    (fun e => out MsgErrUpdateState).

(** ** Remote fetcher *)

(** How one turn of the [while has_more] loop ends. *)
Inductive LoopCtl :=
| Break
| Continue (after : option string).

(** The body of the [while] loop of [get_hubspot_objects]. [params] holds
    the filter [hs_lastmodifieddate >= int(last_sync_time.timestamp() *
    1000)] when [last_sync_time] is given (it always is in the exporter);
    the request is recorded with the datetime [last_sync_time] itself. *)
Definition fetch_iteration (object_type : string)
    (properties : option (list string)) (limit : nat)
    (last_sync_time : option Z) (after : option string)
    (all_objects : list SourceObj) : M (list SourceObj * LoopCtl) :=
  let p_limit := Z.min (Z.of_nat limit) 100 in
  let p_properties :=
    match properties with
    | None | Some [] => None
    | Some ps => Some (PyStr.join "," ps)
    end in
  let p_since := last_sync_time in
  try_except
    (response ← requests_get object_type p_limit p_properties after p_since;
     let '(status_code, retry_header, body) := response in
     if status_code =? 401 then
       out MsgInvalidToken;;
       ret (all_objects, Break)
     else if negb (status_code =? 200) then
       out (MsgHttpError object_type status_code);;
       if status_code =? 429 then
         retry_after ← match retry_header with
                       | NoRetryAfter => ret 10
                       | RetryAfterInt n => ret n
                       | RetryAfterText => raise ValueError
                       end;
         out (MsgRateLimit retry_after);;
         sleep retry_after;;
         ret (all_objects, Continue after)
       else ret (all_objects, Break)
     else
       match body with
       | None => raise JSONDecodeError
       | Some data =>
           let batch := results data in
           let all_objects' := (all_objects ++ batch)%list in
           out (MsgFetched (length batch) (length all_objects'));;
           match paging_next data with
           | Some (Some a) =>
               if decide (a = EmptyString) then ret (all_objects', Break)
               else ret (all_objects', Continue (Some a))
           | Some None | None => ret (all_objects', Break)
           end
       end)
    (fun e => out (MsgFetchException object_type);; ret (all_objects, Break)).

(** The [while has_more] loop; each turn sends one request, so the length
    of the script of replies bounds the turns the model can follow. *)
Fixpoint fetch_loop (fuel : nat) (object_type : string)
    (properties : option (list string)) (limit : nat)
    (last_sync_time : option Z) (after : option string)
    (all_objects : list SourceObj) : M (list SourceObj) :=
  match fuel with
  | O => diverge
  | S fuel' =>
      r ← fetch_iteration object_type properties limit last_sync_time after
            all_objects;
      match r with
      | (all_objects', Break) => ret all_objects'
      | (all_objects', Continue after') =>
          fetch_loop fuel' object_type properties limit last_sync_time after'
            all_objects'
      end
  end.

Definition get_hubspot_objects (object_type : string)
    (properties : option (list string)) (limit : nat)
    (last_sync_time : option Z) : M (list SourceObj) :=
  out (MsgFetching object_type);;
  replies ← gets hubspot;
  fetch_loop (length replies) object_type properties limit last_sync_time
    None [].

(** ** Schema reconciler *)

Definition check_supabase_table_exists (table_name : string) : M bool :=
  try_except (table_probe table_name;; ret true) (fun e => ret false).

(** Basic columns that exist for all tables. *)
Definition basic_columns : list string :=
  [ "id SERIAL PRIMARY KEY";
    "hubspot_id TEXT NOT NULL UNIQUE";
    "created_at TIMESTAMPTZ";
    "updated_at TIMESTAMPTZ";
    "archived BOOLEAN DEFAULT FALSE";
    "raw_properties JSONB" ].

(** The f-string of a property column: the name between double quotes,
    then [TEXT]. *)
Definition text_column (col_name : string) : string :=
  PyStr.dquote ++ col_name ++ PyStr.dquote ++ " TEXT".

(** The [columns] list after the loop over the properties. *)
Definition table_columns (properties : list string) : list string :=
  fold_left
    (fun columns prop =>
       let col_name := col_name_create prop in
       app columns [text_column col_name])
    properties basic_columns.

Definition create_sql_of (table_name : string) (properties : list string)
  : string :=
  "CREATE TABLE " ++ table_name ++ " (" ++ PyStr.nl ++ "    "
  ++ PyStr.join ("," ++ PyStr.nl ++ "    ") (table_columns properties)
  ++ PyStr.nl ++ ");".

Definition create_supabase_table (table_name : string)
    (properties : list string) : M bool :=
  let create_sql := create_sql_of table_name properties in
  out (MsgPleaseExecute table_name create_sql);;
  let sql_filename := "create_" ++ table_name ++ ".sql" in
  file_write sql_filename create_sql;;
  out (MsgSqlSaved sql_filename);;
  ret false.

Definition create_sync_state_table : M unit :=
  try_except supabase_rpc (fun e => out MsgErrCreateState).

(** ** Record transformer *)

(** The [try] block of the loop over [objects] in [export_object_type]:
    the record built from one object, a JSON object whose [properties],
    when present, is a JSON object ([props.get] is then defined). The one
    failure left is the [KeyError] of [obj['id']]. *)
Definition build_record (obj : SourceObj) (properties : list string)
  : Res Row :=
  match o_id obj with
  | None => Raise KeyError
  | Some id =>
      let props := default ∅ (o_properties obj) in
      let record : Row :=
        <["raw_properties" := Dict props]>
          (<["archived" := Scalar (default (PBool false) (o_archived obj))]>
             (<["updated_at" := Scalar (default PNone (o_updatedAt obj))]>
                (<["created_at" := Scalar (default PNone (o_createdAt obj))]>
                   (<["hubspot_id" := Scalar id]> ∅)))) in
      Ok (fold_left
            (fun (record : Row) prop =>
               let col_name := col_name_flatten prop in
               let prop_value := props_get props prop in
               match prop_value with
               | PNone => record
               | _ => <[col_name := Scalar (PStr (py_str prop_value))]> record
               end)
            properties record)
  end.

(** The loop over [objects]: a record that fails is reported and skipped. *)
Definition build_records (object_type : string) (objects : list SourceObj)
    (properties : list string) : M (list Row) :=
  for_fold objects
    (fun records obj =>
       match build_record obj properties with
       | Ok record => ret (records ++ [record])%list
       | Raise e =>
           out (MsgErrRecord object_type (default PNone (o_id obj)));;
           ret records
       end)
    [].

(** ** Batch loader *)

(** [range(0, stop, step)] for a positive [step]. *)
Definition range_step (stop step : nat) : list nat :=
  map (fun k => k * step)%nat (seq 0 ((stop + step - 1) / step)%nat).

(** [records[i:i + batch_size]] *)
Definition slice (records : list Row) (i batch_size : nat) : list Row :=
  take batch_size (drop i records).

(** [all_keys] after the loop over the batch. *)
Definition all_keys_of (batch : list Row) : gset string :=
  fold_left (fun (all_keys : gset string) (record : Row) => all_keys ∪ dom record)
    batch ∅.

(** [{key: record.get(key) for key in all_keys}] *)
Definition standardized_record (all_keys : gset string) (record : Row) : Row :=
  set_to_map (fun key => (key, record_get record key)) all_keys.

(** [standardized_batch] after the loop over the batch. *)
Definition standardized_batch_of (batch : list Row) : list Row :=
  let all_keys := all_keys_of batch in
  fold_left
    (fun standardized_batch record =>
       app standardized_batch [standardized_record all_keys record])
    batch [].

(** [enumerate(l, 1)] *)
Definition enumerate1 {A} (l : list A) : list (nat * A) :=
  combine (seq 1 (length l)) l.

(** The body of the loop of the [except] branch of a batch: one row on its
    own; a failure is printed and the loop goes on. *)
Definition upsert_single (table_name : string) (success_count : nat)
    (item : nat * Row) : M nat :=
  let '(idx, record) := item in
  try_except
    (table_upsert table_name [record];;
     ret (success_count + 1)%nat)
    (fun single_error =>
       out (MsgRowErr idx
              (default (Scalar (PStr "unknown")) (record !! "hubspot_id")));;
       ret success_count).

(** The [except] branch of a batch: the rows of the padded batch one by
    one; gives [success_count]. *)
Definition upsert_one_by_one (table_name : string)
    (standardized_batch : list Row) : M nat :=
  for_fold (enumerate1 standardized_batch) (upsert_single table_name) 0%nat.

(** The body of the loop over the batches. *)
Definition load_batch (table_name : string) (records : list Row)
    (batch_size total_batches : nat) (i : nat) : M unit :=
  let batch := slice records i batch_size in
  let standardized_batch := standardized_batch_of batch in
  try_except
    (table_upsert table_name standardized_batch;;
     out (MsgBatchOk (i / batch_size + 1) total_batches (length batch)))
    (fun e =>
       out (MsgBatchErr (i / batch_size + 1) total_batches);;
       success_count ← upsert_one_by_one table_name standardized_batch;
       out (MsgFallbackCount success_count (length standardized_batch))).

(** [# Insert in batches] to the end of [export_object_type]. *)
Definition load_records (table_name : string) (records : list Row)
    (batch_size : nat) : M unit :=
  if decide (batch_size = 0%nat) then raise ZeroDivisionError
  else
    let total_batches := ((length records + batch_size - 1) / batch_size)%nat in
    for_each (range_step (length records) batch_size)
      (load_batch table_name records batch_size total_batches).

(** ** The sync of one object type *)

(** [export_object_type] from [# Check if table exists] on. *)
Definition export_properties (object_type table_name : string)
    (last_sync_time : Z) (properties : list string) (batch_size : nat)
  : M unit :=
  found ← check_supabase_table_exists table_name;
  proceed ← (if negb found then create_supabase_table table_name properties
             else out (MsgTableExists table_name);; ret true);
  if negb proceed then ret tt
  else
    objects ← get_hubspot_objects object_type (Some properties) batch_size
                (Some last_sync_time);
    match objects with
    | [] => out (MsgNoObjects object_type)
    | _ =>
        records ← build_records object_type objects properties;
        match records with
        | [] => out (MsgNoRecords object_type)
        | _ => load_records table_name records batch_size
        end
    end.

Definition export_object_type (object_type : string)
    (specific_properties : option (list string)) (batch_size : nat) : M unit :=
  let table_name := "hubspot_" ++ object_type in
  create_sync_state_table;;
  last ← get_last_sync_time object_type;
  let '(last_sync_time, sync_cursor) := last in
  out (MsgLastSync object_type last_sync_time);;
  match specific_properties with
  | None =>
      properties ← get_all_properties object_type;
      match properties with
      | [] => out (MsgNoProperties object_type)
      | _ =>
          out (MsgFoundProperties object_type (length properties));;
          export_properties object_type table_name last_sync_time properties
            batch_size
      end
  | Some properties =>
      export_properties object_type table_name last_sync_time properties
        batch_size
  end.

(** ** The run *)

Definition OBJECTS_TO_EXPORT : list (string * list string) :=
  [ ("contacts",
     [ "email"; "firstname"; "lastname"; "phone"; "company"; "hs_object_id";
       "createdate"; "lastmodifieddate"; "hs_lead_status"; "lifecyclestage" ]);
    ("companies",
     [ "name"; "domain"; "phone"; "hs_object_id"; "createdate";
       "lastmodifieddate"; "industry"; "city"; "state"; "country"; "website" ]);
    ("deals",
     [ "dealname"; "dealstage"; "pipeline"; "amount"; "closedate";
       "createdate"; "hs_object_id"; "lastmodifieddate"; "hubspot_owner_id" ]) ].

(** The body of the loop of [main] over [OBJECTS_TO_EXPORT]. *)
Definition main_iteration (object_type : string) (properties : list string)
  : M unit :=
  out (MsgProcessing object_type);;
  try_except
    (export_object_type object_type (Some properties) 100;;
     out (MsgProcessed object_type);;
     (* Update sync time after successful sync *)
     t ← now;
     update_sync_state object_type t EmptyString)
    (fun e => out (MsgErrProcessing object_type e)).

Definition main : M unit :=
  out MsgSyncStart;;
  for_each OBJECTS_TO_EXPORT
    (fun '(object_type, properties) => main_iteration object_type properties);;
  out MsgSyncCompleted.

(** ** Statements about the transformer *)

(** The keys that [build_record] sets before it flattens the properties. *)
Definition record_keys : list string :=
  [ "hubspot_id"; "created_at"; "updated_at"; "archived"; "raw_properties" ].

(** What a flattened row looks like: [raw_properties] holds the property
    map of the object untouched; every declared property with a value that
    is not null has its sanitised name as a column, and the column holds
    the text of the last declared property of that column name that has a
    value (the property itself, unless a later one collides with it); no
    other column is added. *)
Definition flattened (obj : SourceObj) (properties : list string)
    (record : Row) : Prop :=
  let props := default ∅ (o_properties obj) in
  record !! "raw_properties" = Some (Dict props)
  /\ (forall p, p ∈ properties -> props_get props p <> PNone ->
        exists (before : list string) (q : string) (after : list string),
          properties = (before ++ q :: after)%list
          /\ col_name_flatten q = col_name_flatten p
          /\ props_get props q <> PNone
          /\ (forall p', p' ∈ after -> props_get props p' <> PNone ->
                col_name_flatten p' <> col_name_flatten p)
          /\ record !! col_name_flatten p
             = Some (Scalar (PStr (py_str (props_get props q)))))
  /\ (forall col, col ∉ record_keys -> col ∈ dom record ->
        exists p, p ∈ properties
          /\ col_name_flatten p = col
          /\ props_get props p <> PNone).

(** A record with the properties [email] and [custom_field]. *)
Definition obj_email : SourceObj :=
  {| o_id := Some (PStr "1");
     o_createdAt := Some (PStr "2024-01-01T00:00:00Z");
     o_updatedAt := Some (PStr "2024-01-02T00:00:00Z");
     o_archived := Some (PBool false);
     o_properties :=
       Some (<["email" := PStr "a@b.com"]> (<["custom_field" := PStr "x"]> ∅)) |}.

(** A record with a property named like the blob column. *)
Definition obj_clash : SourceObj :=
  {| o_id := Some (PStr "7");
     o_createdAt := None;
     o_updatedAt := None;
     o_archived := None;
     o_properties := Some (<["raw_properties" := PStr "x"]> ∅) |}.

(** ** Statements about runs *)

(** The rows and outcome of an upsert into a destination table. *)
Definition upsert_of (e : Event) : option (list Row * bool) :=
  match e with
  | EvUpsert _ rows ok => Some (rows, ok)
  | _ => None
  end.

(** The upserts of a trace, in order. *)
Definition upserts (tr : list Event) : list (list Row * bool) :=
  omap upsert_of tr.

(** The number of upserts that succeeded. *)
Definition count_ok (l : list (list Row * bool)) : nat :=
  length (List.filter snd l).

(** An event that is neither a page request nor an upsert of rows. *)
Definition no_fetch_or_load (e : Event) : bool :=
  match e with
  | EvHttpGet _ _ _ _ _ _ | EvUpsert _ _ _ => false
  | _ => true
  end.

(** The second world differs from the first by its trace and by the fault
    script at most. *)
Record same_stores (w w' : World) : Prop := {
  ss_clock : clock w' = clock w;
  ss_hubspot : hubspot w' = hubspot w;
  ss_catalog : catalog w' = catalog w;
  ss_sync_state : sync_state w' = sync_state w;
  ss_tables : tables w' = tables w;
  ss_files : files w' = files w
}.

(** The world in which the body of the [try] of [main] starts: the
    line [Processing ...] has been printed. *)
Definition processing (object_type : string) (w : World) : World :=
  set_trace (trace w ++ [EvOut (MsgProcessing object_type)]) w.

(** The watermark that [main] writes at time [t]. *)
Definition watermark_at (t : Z) : SyncRow :=
  {| last_sync_time := Some t; sync_cursor := Some EmptyString; updated_at := t |}.

(** A computation that leaves the watermark store as it found it. *)
Definition keeps_watermarks {A} (m : M A) : Prop :=
  forall w r w', m w = Some (r, w') -> sync_state w' = sync_state w.

(** A computation that never raises. *)
Definition never_raises {A} (m : M A) : Prop :=
  forall w r w', m w = Some (r, w') -> exists a, r = Ok a.

(** ** Concrete runs *)

(** A first page holding one record and announcing a second page. *)
Definition first_page : Page :=
  {| results := [obj_email]; paging_next := Some (Some "100") |}.

(** A world in which the table of contacts exists, the watermark of
    contacts is one hour old, and the reply to the request of the second
    page is the one given. *)
Definition world_second_page (reply : HttpReply) : World :=
  {| clock := 1700003600000000;
     faults := [];
     hubspot := [Response 200 NoRetryAfter (Some first_page); reply];
     catalog := ∅;
     sync_state := {[ "contacts" := watermark_at 1700000000000000 ]};
     tables := {[ "hubspot_contacts" ]};
     files := ∅;
     trace := [] |}.

(** The transport fails on the second page. *)
Definition world_fetch_aborts : World := world_second_page ConnectionError.

(** HubSpot answers 401 to the request of the second page. *)
Definition world_unauthorized : World :=
  world_second_page (Response 401 NoRetryAfter None).

(** A world with no destination table and no watermark. *)
Definition world_unprovisioned : World :=
  {| clock := 1700003600000000;
     faults := [];
     hubspot := [];
     catalog := ∅;
     sync_state := ∅;
     tables := ∅;
     files := ∅;
     trace := [] |}.

(** The stored watermark of an object type after a run of [main], when the
    run ends. *)
Definition watermark_after_main (object_type : string) (w : World)
  : option SyncRow :=
  match main w with
  | Some (_, w') => sync_state w' !! object_type
  | None => None
  end.

(** The page requests of a trace, with their replies. *)
Definition http_replies (tr : list Event) : list HttpReply :=
  omap (fun e => match e with
                 | EvHttpGet _ _ _ _ _ reply => Some reply
                 | _ => None
                 end) tr.

(** Rows with the key sets a-b, a-c and a. *)
Definition row_ab : Row :=
  <["a" := Scalar (PInt 1)]> (<["b" := Scalar (PInt 2)]> ∅).

Definition row_ac : Row :=
  <["a" := Scalar (PInt 3)]> (<["c" := Scalar (PInt 4)]> ∅).

Definition row_a : Row := <["a" := Scalar (PInt 5)]> ∅.

(** The console and log lines of a trace. *)
Definition outs (tr : list Event) : list Msg :=
  omap (fun e => match e with EvOut m => Some m | _ => None end) tr.

(** The errors that [main] logs for a cycle that raised. *)
Definition processing_errors (tr : list Event) : list (string * Exn) :=
  omap (fun e => match e with
                 | EvOut (MsgErrProcessing object_type e) => Some (object_type, e)
                 | _ => None
                 end) tr.

(** The result and the trace of a run of [main], when the run ends. *)
Definition result_of_main (w : World) : option (Res unit) :=
  fst <$> main w.

Definition trace_after_main (w : World) : list Event :=
  match main w with
  | Some (_, w') => trace w'
  | None => []
  end.

(** A world in which the next upsert fails, the one after succeeds and the
    third fails again. *)
Definition world_bulk_fails : World :=
  {| clock := 1700003600000000;
     faults := [true; false; true];
     hubspot := [];
     catalog := ∅;
     sync_state := ∅;
     tables := {[ "hubspot_contacts" ]};
     files := ∅;
     trace := [] |}.

(** A world in which the next call to Supabase fails, with a watermark
    stored for contacts. *)
Definition world_store_down : World :=
  {| clock := 1700003600000000;
     faults := [true];
     hubspot := [];
     catalog := ∅;
     sync_state := {[ "contacts" := watermark_at 1700000000000000 ]};
     tables := {[ "hubspot_contacts" ]};
     files := ∅;
     trace := [] |}.

(** The world after the cycle of contacts in [world_unprovisioned]. *)
Definition world_unprovisioned_exported : World :=
  match export_object_type "contacts" (Some ["email"]) 100
          (processing "contacts" world_unprovisioned) with
  | Some (_, w') => w'
  | None => world_unprovisioned
  end.

(** ** Statements about whole computations *)

(** A computation whose new events all satisfy [P]. *)
Definition emits (P : Event -> Prop) {A} (m : M A) : Prop :=
  forall w r w', m w = Some (r, w') ->
    exists evs, trace w' = (trace w ++ evs)%list /\ Forall P evs.

(** The object types that [main] announces, in order. *)
Definition announced (tr : list Event) : list string :=
  omap (fun e => match e with
                 | EvOut (MsgProcessing object_type) => Some object_type
                 | _ => None
                 end) tr.

(** An event other than the announcement of an object type. *)
Definition not_announcement (e : Event) : Prop :=
  match e with
  | EvOut (MsgProcessing _) => False
  | _ => True
  end.

(** An event other than a write to the watermark store. *)
Definition not_watermark_write (e : Event) : Prop :=
  match e with
  | EvUpsertState _ _ _ => False
  | EvOut (MsgProcessing _) | EvOut (MsgProcessed _)
  | EvOut (MsgErrProcessing _ _) | EvOut MsgSyncStart
  | EvOut MsgSyncCompleted => False
  | _ => True
  end.

(** The parameters that every page request of one fetch carries; the
    filter on the modification date is computed from [last_sync_time]. *)
Definition page_request_of (object_type : string)
    (properties : option (list string)) (limit : nat)
    (last_sync_time : option Z) (e : Event) : Prop :=
  match e with
  | EvHttpGet ot l props _ since _ =>
      ot = object_type
      /\ l = Z.min (Z.of_nat limit) 100
      /\ props = match properties with
                 | None | Some [] => None
                 | Some ps => Some (PyStr.join "," ps)
                 end
      /\ since = last_sync_time
  | _ => True
  end.

(** The events of a cycle of one object type: rows go to the table of the
    object type, pages and properties are asked for that object type, the
    script is written to the file of its table; the watermark store is not
    written, and the lines of [main] are not printed. *)
Definition cycle_event_of (object_type : string) (e : Event) : Prop :=
  match e with
  | EvUpsert table_name _ _ => table_name = "hubspot_" ++ object_type
  | EvProbe table_name _ => table_name = "hubspot_" ++ object_type
  | EvHttpGet ot _ _ _ _ _ => ot = object_type
  | EvSelectState ot _ => ot = object_type
  | EvGetProperties ot _ => ot = object_type
  | EvWriteFile filename _ _ =>
      filename = "create_" ++ ("hubspot_" ++ object_type) ++ ".sql"
  | EvUpsertState _ _ _ => False
  | EvOut (MsgProcessing _) | EvOut (MsgProcessed _)
  | EvOut (MsgErrProcessing _ _) | EvOut MsgSyncStart
  | EvOut MsgSyncCompleted => False
  | _ => True
  end.

(** The world after a run of [main], when the run ends. *)
Definition world_after_main (w : World) : World :=
  match main w with
  | Some (_, w') => w'
  | None => w
  end.

(** ** Statements about the fetch *)

(** The [after] tokens of the page requests of a trace, in order. *)
Definition http_afters (tr : list Event) : list (option string) :=
  omap (fun e => match e with
                 | EvHttpGet _ _ _ after _ _ => Some after
                 | _ => None
                 end) tr.

(** The sleeps of a trace, in seconds. *)
Definition sleeps (tr : list Event) : list Z :=
  omap (fun e => match e with EvSleep n => Some n | _ => None end) tr.

(** A 200 reply holding [p.1] and announcing a next page at token [p.2]. *)
Definition page_reply (p : list SourceObj * string) : HttpReply :=
  Response 200 NoRetryAfter
    (Some {| results := p.1; paging_next := Some (Some p.2) |}).

(** A page that announces no next page: no [paging.next], or one without
    an [after], or one with an empty [after]. *)
Definition is_last_page (p : Page) : bool :=
  match paging_next p with
  | Some (Some a) => bool_decide (a = EmptyString)
  | Some None | None => true
  end.

(** The wait that a [Retry-After] header asks for: 10 seconds when the
    header is absent, nothing when [int] rejects its text. *)
Definition retry_seconds (h : RetryAfter) : option Z :=
  match h with
  | NoRetryAfter => Some 10
  | RetryAfterInt n => Some n
  | RetryAfterText => None
  end.

(** The replies on which the fetch loop gives up. *)
Definition gives_up (r : HttpReply) : bool :=
  match r with
  | ConnectionError => true
  | Response status retry_after body =>
      if status =? 200 then
        match body with None => true | Some _ => false end
      else if status =? 429 then
        match retry_seconds retry_after with
        | Some n => n <? 0
        | None => true
        end
      else true
  end.

(** A second page that announces no other. *)
Definition second_page : Page :=
  {| results := [obj_clash]; paging_next := None |}.

(** The world of [world_second_page] when the second page arrives. *)
Definition world_two_pages : World :=
  world_second_page (Response 200 NoRetryAfter (Some second_page)).

(** HubSpot answers 429 with [Retry-After: 3], then the page. *)
Definition world_rate_limited : World :=
  {| clock := 1700003600000000;
     faults := [];
     hubspot := [Response 429 (RetryAfterInt 3) None;
                 Response 200 NoRetryAfter (Some second_page)];
     catalog := ∅;
     sync_state := ∅;
     tables := {[ "hubspot_contacts" ]};
     files := ∅;
     trace := [] |}.

(** HubSpot answers 500 to the request of the second page. *)
Definition world_server_error : World :=
  world_second_page (Response 500 NoRetryAfter None).

(** A world with no fault scripted and a watermark stored for deals. *)
Definition world_deals_synced : World :=
  {| clock := 1700003600000000;
     faults := [];
     hubspot := [];
     catalog := ∅;
     sync_state := {[ "deals" := watermark_at 1700000000000000 ]};
     tables := ∅;
     files := ∅;
     trace := [] |}.

(** A world like [world_unprovisioned] in which the fifth call to Supabase
    or to the file system fails: the write of the watermark. *)
Definition world_write_fails : World :=
  set_faults [false; false; false; false; true] world_unprovisioned.

(** The world after the cycle of contacts in [world_write_fails]. *)
Definition world_write_fails_exported : World :=
  match export_object_type "contacts" (Some ["email"]) 100
          (processing "contacts" world_write_fails) with
  | Some (_, w') => w'
  | None => world_write_fails
  end.

(** ** Statements about the records *)

(** The record of an object, when it can be built. *)
Definition record_of (properties : list string) (obj : SourceObj)
  : option Row :=
  match build_record obj properties with
  | Ok record => Some record
  | Raise _ => None
  end.

(** The line printed for an object that gives no record. *)
Definition skipped_line (object_type : string) (properties : list string)
    (obj : SourceObj) : option Msg :=
  match build_record obj properties with
  | Ok _ => None
  | Raise _ => Some (MsgErrRecord object_type (default PNone (o_id obj)))
  end.

(** An object without [id]. *)
Definition obj_no_id : SourceObj :=
  {| o_id := None;
     o_createdAt := None;
     o_updatedAt := None;
     o_archived := None;
     o_properties := Some (<["email" := PStr "c@d.com"]> ∅) |}.

(** An object with two properties that share a sanitised name. *)
Definition obj_collision : SourceObj :=
  {| o_id := Some (PStr "9");
     o_createdAt := None;
     o_updatedAt := None;
     o_archived := None;
     o_properties :=
       Some (<["Lead Status" := PStr "open"]>
               (<["lead_status" := PStr "closed"]> ∅)) |}.

(** An event other than an upsert of rows. *)
Definition not_upsert (e : Event) : Prop := upsert_of e = None.

(** The world of [world_two_pages] in which the probe of the table fails,
    although the table exists. *)
Definition world_probe_fails : World :=
  set_faults [true] world_two_pages.

(** A world in which the list of the properties of contacts cannot be
    fetched. *)
Definition world_no_discovery : World :=
  set_faults [false; false; true] world_two_pages.

(** HubSpot answers 401 to the first request; the table exists. *)
Definition world_unauthorized_at_once : World :=
  {| clock := 1700003600000000;
     faults := [];
     hubspot := [Response 401 NoRetryAfter None];
     catalog := ∅;
     sync_state := {[ "contacts" := watermark_at 1700000000000000 ]};
     tables := {[ "hubspot_contacts" ]};
     files := ∅;
     trace := [] |}.

(** The world after the fetch of contacts in [world_fetch_aborts]. *)
Definition world_fetch_aborts_fetched : World :=
  match get_hubspot_objects "contacts" (Some ["email"]) 100
          (Some 1700000000000000) world_fetch_aborts with
  | Some (_, w') => w'
  | None => world_fetch_aborts
  end.

(** The world after the cycle of contacts in [world_two_pages]. *)
Definition world_two_pages_exported : World :=
  match export_object_type "contacts" (Some ["email"]) 100 world_two_pages with
  | Some (_, w') => w'
  | None => world_two_pages
  end.

(** The world after the read of the watermark in [world_store_down]. *)
Definition world_store_down_read : World :=
  match get_last_sync_time "contacts" world_store_down with
  | Some (_, w') => w'
  | None => world_store_down
  end.
(** * Properties *)

(** ** Column names *)

Lemma sanitize_char_column (c : ascii) :
  SanitizeSpec.column_char (PyStr.lower_char (SanitizeSpec.replace_non_alnum c)) = true.
Proof. destruct c as [[] [] [] [] [] [] [] []]; reflexivity. Qed.

Lemma col_name_flatten_spec (prop : string) :
  col_name_flatten prop = SanitizeSpec.sanitize prop.
Proof.
  unfold col_name_flatten.
  induction prop as [|c rest IH]; simpl; [reflexivity|].
  now rewrite IH.
Qed.

Lemma sanitize_length (name : string) :
  String.length (SanitizeSpec.sanitize name) = String.length name.
Proof. induction name; simpl; congruence. Qed.

Lemma sanitize_column_chars (name : string) :
  SanitizeSpec.all_chars SanitizeSpec.column_char (SanitizeSpec.sanitize name) = true.
Proof.
  induction name as [|c rest IH]; simpl; [reflexivity|].
  now rewrite sanitize_char_column, IH.
Qed.

Lemma table_columns_app (properties : list string) (columns : list string) :
  fold_left
    (fun columns prop =>
       let col_name := col_name_create prop in
       app columns [text_column col_name])
    properties columns
  = app columns (map (fun prop => text_column (col_name_create prop)) properties).
Proof.
  revert columns. induction properties as [|p ps IH]; intros columns; simpl.
  - now rewrite app_nil_r.
  - rewrite IH. now rewrite <- app_assoc.
Qed.

Lemma sanitize_char_code (c : ascii) :
  nat_of_ascii (PyStr.lower_char (SanitizeSpec.replace_non_alnum c))
  = (let n := nat_of_ascii c in
     if (65 <=? n) && (n <=? 90) then n + 32
     else if (48 <=? n) && (n <=? 57) || (97 <=? n) && (n <=? 122) then n
     else 95)%nat.
Proof. destruct c as [[] [] [] [] [] [] [] []]; reflexivity. Qed.

Lemma sanitize_get (name : string) :
  forall (i : nat) (c : ascii),
    String.get i name = Some c ->
    String.get i (SanitizeSpec.sanitize name)
    = Some (PyStr.lower_char (SanitizeSpec.replace_non_alnum c)).
Proof.
  induction name as [|d rest IH]; intros i c; simpl; [discriminate|].
  destruct i as [|i]; [intros [= ->]; reflexivity|]. apply IH.
Qed.

Lemma column_char_is_ascii (name : string) :
  SanitizeSpec.all_chars SanitizeSpec.column_char name = true ->
  PyStr.is_ascii name = true.
Proof.
  induction name as [|c rest IH]; simpl; [reflexivity|].
  intros [Hc Hrest]%andb_prop. rewrite (IH Hrest), andb_true_r.
  revert Hc. clear. destruct c as [[] [] [] [] [] [] [] []]; vm_compute; congruence.
Qed.

Lemma col_name_create_spec (prop : string) :
  col_name_create prop = SanitizeSpec.sanitize prop.
Proof.
  unfold col_name_create. change (PyStr.lower _) with (col_name_flatten prop).
  apply col_name_flatten_spec.
Qed.

(** C8. The column name of every property name (an ASCII string, the
    domain of the embedding) is obtained by replacing each character that
    is not alphanumeric with an underscore and lower-casing the result:
    it has the length of the name, its character at each position is the
    lower-case form of the letter there, the digit or lower-case letter
    there, and an underscore for anything else, so it is made of
    lower-case letters, digits and underscores; "Lead Status!" becomes
    "lead_status_"; table creation and row flattening compute the same
    name. *)
Theorem column_name_sanitization :
  (forall prop : string,
      PyStr.is_ascii prop = true ->
      col_name_flatten prop = SanitizeSpec.sanitize prop
      /\ col_name_create prop = col_name_flatten prop
      /\ String.length (col_name_flatten prop) = String.length prop
      /\ SanitizeSpec.all_chars SanitizeSpec.column_char
           (col_name_flatten prop) = true
      /\ (forall (i : nat) (c : ascii),
            String.get i prop = Some c ->
            exists c' : ascii,
              String.get i (col_name_flatten prop) = Some c'
              /\ nat_of_ascii c'
                 = (let n := nat_of_ascii c in
                    if (65 <=? n) && (n <=? 90) then n + 32
                    else if (48 <=? n) && (n <=? 57)
                            || (97 <=? n) && (n <=? 122) then n
                    else 95)%nat))
  /\ col_name_flatten "Lead Status!" = "lead_status_"
  /\ col_name_create "Lead Status!" = "lead_status_"
  /\ col_name_flatten "hs_object_id" = "hs_object_id"
  /\ col_name_create "E-Mail.2" = "e_mail_2".
Proof.
  split; [|repeat split; reflexivity].
  intros prop _. rewrite col_name_create_spec, col_name_flatten_spec.
  repeat split.
  - apply sanitize_length.
  - apply sanitize_column_chars.
  - intros i c Hget. eexists. split; [apply (sanitize_get _ _ _ Hget)|].
    apply sanitize_char_code.
Qed.

Lemma all_keys_fold (batch : list Row) (acc : gset string) (key : string) :
  key ∈ fold_left (fun (all_keys : gset string) (record : Row) => all_keys ∪ dom record) batch acc
  <-> key ∈ acc \/ exists record, record ∈ batch /\ key ∈ dom record.
Proof.
  revert acc. induction batch as [|r rs IH]; intros acc; simpl.
  - split; [auto|]. intros [H|(r & Hr & _)]; [done|]. by apply elem_of_nil in Hr.
  - rewrite IH. rewrite elem_of_union. split.
    + intros [[H|H]|(r' & Hr' & Hk)]; [by left| |].
      * right. exists r. split; [left|done].
      * right. exists r'. split; [by right|done].
    + intros [H|(r' & Hr' & Hk)]; [by left; left|].
      apply elem_of_cons in Hr' as [->|Hr']; [by left; right|].
      right. by exists r'.
Qed.

Lemma elem_of_all_keys (batch : list Row) (key : string) :
  key ∈ all_keys_of batch <-> exists record, record ∈ batch /\ key ∈ dom record.
Proof.
  unfold all_keys_of. rewrite all_keys_fold. split; [|by right].
  intros [H|H]; [|done]. by apply not_elem_of_empty in H.
Qed.

Lemma standardized_record_lookup (all_keys : gset string) (record : Row) (key : string) :
  standardized_record all_keys record !! key
  = if decide (key ∈ all_keys) then Some (record_get record key) else None.
Proof.
  unfold standardized_record.
  destruct (decide (key ∈ all_keys)) as [Hin|Hnin].
  - apply lookup_set_to_map; [naive_solver|]. by exists key.
  - apply eq_None_not_Some. intros [x Hx].
    apply lookup_set_to_map in Hx as (y & Hy & Heq); [|naive_solver].
    by simplify_eq.
Qed.

Lemma standardized_batch_fold (all_keys : gset string) (batch acc : list Row) :
  fold_left
    (fun standardized_batch record =>
       app standardized_batch [standardized_record all_keys record])
    batch acc
  = app acc (map (standardized_record all_keys) batch).
Proof.
  revert acc. induction batch as [|r rs IH]; intros acc; simpl.
  - by rewrite app_nil_r.
  - rewrite IH. by rewrite <- app_assoc.
Qed.

Lemma standardized_batch_map (batch : list Row) :
  standardized_batch_of batch = map (standardized_record (all_keys_of batch)) batch.
Proof. unfold standardized_batch_of. by rewrite standardized_batch_fold. Qed.

Lemma standardized_batch_length (batch : list Row) :
  length (standardized_batch_of batch) = length batch.
Proof. rewrite standardized_batch_map. apply length_map. Qed.

(** C5. The padded batch is rectangular: every output row has as keys the
    union of the keys of the input rows of the batch; a key missing from
    an input row holds null, a key present keeps its value. *)
Theorem padded_batch_rectangular (batch : list Row) (i : nat) (record : Row) :
  batch !! i = Some record ->
  length (standardized_batch_of batch) = length batch
  /\ exists padded : Row,
      standardized_batch_of batch !! i = Some padded
      /\ (forall key, key ∈ dom padded <-> exists r, r ∈ batch /\ key ∈ dom r)
      /\ (forall key v, record !! key = Some v -> padded !! key = Some v)
      /\ (forall key, key ∈ dom padded -> record !! key = None ->
                      padded !! key = Some (Scalar PNone)).
Proof.
  intros Hi. split; [apply standardized_batch_length|].
  exists (standardized_record (all_keys_of batch) record).
  split; [|split; [|split]].
  - rewrite standardized_batch_map, list_lookup_fmap, Hi. done.
  - intros key. rewrite elem_of_dom, standardized_record_lookup.
    rewrite <- elem_of_all_keys.
    destruct (decide (key ∈ all_keys_of batch)); [by split; eauto|].
    split; [by intros [? ?]|done].
  - intros key v Hv. rewrite standardized_record_lookup.
    rewrite decide_True.
    + unfold record_get. by rewrite Hv.
    + apply elem_of_all_keys. exists record. split.
      * by eapply list_elem_of_lookup_2.
      * apply elem_of_dom. eauto.
  - intros key Hin Hnone. rewrite standardized_record_lookup.
    apply elem_of_dom in Hin as [x Hx].
    rewrite standardized_record_lookup in Hx.
    destruct (decide (key ∈ all_keys_of batch)); [|done].
    unfold record_get. by rewrite Hnone.
Qed.

(** ** Record transformer *)

Section Flatten.

Variable props : gmap string pyval.

Let flatten_step (record : Row) (prop : string) : Row :=
  let col_name := col_name_flatten prop in
  let prop_value := props_get props prop in
  match prop_value with
  | PNone => record
  | _ => <[col_name := Scalar (PStr (py_str prop_value))]> record
  end.

Lemma flatten_step_lookup (record : Row) (prop col : string) :
  flatten_step record prop !! col =
    if decide (props_get props prop <> PNone /\ col_name_flatten prop = col)
    then Some (Scalar (PStr (py_str (props_get props prop))))
    else record !! col.
Proof.
  unfold flatten_step.
  destruct (props_get props prop) eqn:E; case_decide as H; try reflexivity;
    try (destruct H as [? <-]; (congruence || apply lookup_insert_eq));
    try (apply lookup_insert_ne; intros Hc; apply H; split; [congruence|done]).
Qed.

Lemma flatten_fold_lookup (properties : list string) (record : Row) (col : string) :
  fold_left flatten_step properties record !! col = record !! col
  \/ exists q, q ∈ properties
       /\ col_name_flatten q = col
       /\ props_get props q <> PNone
       /\ fold_left flatten_step properties record !! col
          = Some (Scalar (PStr (py_str (props_get props q)))).
Proof.
  revert record. induction properties as [|p ps IH]; intros record; simpl.
  - by left.
  - destruct (IH (flatten_step record p)) as [Heq|(q & Hq & Hc & Hn & Hl)].
    + rewrite Heq, flatten_step_lookup.
      destruct (decide _) as [[Hn Hc]|_]; [|by left].
      right. exists p. split; [left|done].
    + right. exists q. split; [by right|done].
Qed.

Lemma flatten_fold_present (properties : list string) (record : Row) (p : string) :
  p ∈ properties -> props_get props p <> PNone ->
  exists q, q ∈ properties
    /\ col_name_flatten q = col_name_flatten p
    /\ props_get props q <> PNone
    /\ fold_left flatten_step properties record !! col_name_flatten p
       = Some (Scalar (PStr (py_str (props_get props q)))).
Proof.
  revert record. induction properties as [|p' ps IH]; intros record Hin Hn.
  - by apply elem_of_nil in Hin.
  - simpl. apply elem_of_cons in Hin as [->|Hin].
    + destruct (flatten_fold_lookup ps (flatten_step record p') (col_name_flatten p'))
        as [Heq|(q & Hq & Hc & Hqn & Hl)].
      * exists p'. split; [left|]. split; [done|]. split; [done|].
        rewrite Heq, flatten_step_lookup. by rewrite decide_True.
      * exists q. split; [by right|done].
    + destruct (IH (flatten_step record p') Hin Hn) as (q & Hq & ?).
      exists q. split; [by right|done].
Qed.

Lemma flatten_fold_last (properties : list string) (record : Row) (col : string) :
  ((forall p, p ∈ properties -> props_get props p <> PNone ->
              col_name_flatten p <> col)
   /\ fold_left flatten_step properties record !! col = record !! col)
  \/ exists (before : list string) (q : string) (after : list string),
       properties = (before ++ q :: after)%list
       /\ col_name_flatten q = col
       /\ props_get props q <> PNone
       /\ (forall p', p' ∈ after -> props_get props p' <> PNone ->
             col_name_flatten p' <> col)
       /\ fold_left flatten_step properties record !! col
          = Some (Scalar (PStr (py_str (props_get props q)))).
Proof.
  revert record. induction properties as [|p ps IH]; intros record; simpl.
  - left. split; [|reflexivity]. intros p Hp. by apply elem_of_nil in Hp.
  - destruct (IH (flatten_step record p))
      as [[Hnone Heq]|(before & q & after & -> & Hc & Hn & Hlast & Hl)].
    + rewrite Heq, flatten_step_lookup.
      destruct (decide _) as [[Hn Hc]|Hno].
      * right. exists [], p, ps. by repeat split.
      * left. split; [|reflexivity].
        intros p' [->|Hp']%elem_of_cons Hn' Hc'; [by apply Hno|].
        by apply (Hnone p').
    + right. exists (p :: before), q, after. by repeat split.
Qed.

End Flatten.

(** C4, as the code has it. For every source record and every declared
    property list in which no property that has a value in the record is
    named, once sanitised, [raw_properties]: the row built keeps the
    untouched property map under [raw_properties]; every declared property
    with a value that is not null is flattened under its sanitised name as
    text (when several declared properties with a value have the same
    sanitised name, the text is that of the one declared last); nothing
    else is flattened. A row is built for every record that has an id. *)
Theorem flatten_keeps_raw_properties (obj : SourceObj) (properties : list string) :
  (forall p, p ∈ properties ->
             props_get (default ∅ (o_properties obj)) p <> PNone ->
             col_name_flatten p <> "raw_properties") ->
  (forall record, build_record obj properties = Ok record ->
                  flattened obj properties record)
  /\ (forall id, o_id obj = Some id ->
                 exists record, build_record obj properties = Ok record).
Proof.
  intros Hfree. split;
    [|intros id Hid; unfold build_record; rewrite Hid; by eexists].
  intros record. unfold build_record.
  destruct (o_id obj) as [id|]; [|discriminate]. intros [= <-].
  set (props := default ∅ (o_properties obj)) in *.
  match goal with |- flattened _ _ (fold_left _ _ ?r) => set (record0 := r) end.
  unfold flattened. fold props. split; [|split].
  - destruct (flatten_fold_lookup props properties record0 "raw_properties")
      as [Heq|(q & Hq & Hc & Hn & _)].
    + etransitivity; [exact Heq|]. subst record0. apply lookup_insert_eq.
    + exfalso. by apply (Hfree q).
  - intros p Hp Hn.
    destruct (flatten_fold_last props properties record0 (col_name_flatten p))
      as [[Hnone _]|Hlast]; [by destruct (Hnone p Hp Hn)|exact Hlast].
  - intros col Hcol Hdom.
    destruct (flatten_fold_lookup props properties record0 col)
      as [Heq|(q & Hq & Hc & Hn & _)].
    + exfalso. apply elem_of_dom in Hdom as [x Hx].
      assert (Hx0 : record0 !! col = Some x) by (rewrite <- Heq; exact Hx).
      subst record0. unfold record_keys in Hcol.
      repeat (rewrite lookup_insert_ne in Hx0
                by (intros <-; apply Hcol; set_solver)).
      by rewrite lookup_empty in Hx0.
    + by exists q.
Qed.

(** C4, the input on which the statement of the specification fails: a
    declared property named [raw_properties] overwrites the blob. *)
Lemma flatten_overwrites_raw_properties :
  ~ (forall record, build_record obj_clash ["raw_properties"] = Ok record ->
                    flattened obj_clash ["raw_properties"] record).
Proof.
  intros H.
  destruct (build_record obj_clash ["raw_properties"]) as [record|e] eqn:E;
    [|vm_compute in E; discriminate].
  destruct (H record eq_refl) as [Hraw _].
  vm_compute in E. injection E as <-.
  vm_compute in Hraw. discriminate.
Qed.

(** ** Watermark store *)

Ltac run_monad :=
  unfold try_except, mbind, M_bind, bind, out, emit, now, gets, modify,
    pop_fault, ret, raise in *; simpl in *.

(** C9. With no watermark recorded for the object type, the read gives a
    last-sync time exactly 24 hours before the current time, and the empty
    cursor. *)
Theorem first_sync_default_lookback (object_type : string) (w : World) :
  sync_state w !! object_type = None ->
  exists w', get_last_sync_time object_type w
             = Some (Ok (clock w - one_day, Some EmptyString), w')
             /\ clock w - (clock w - one_day) = 24 * 3600 * 1000000
             /\ clock w' = clock w
             /\ sync_state w' = sync_state w.
Proof.
  intros Hnone. unfold get_last_sync_time, sync_state_select. run_monad.
  destruct (faults w) as [|[] fs]; simpl; rewrite ?Hnone; simpl;
    eexists; (split; [reflexivity|]);
    (split; [unfold one_day; lia|split; reflexivity]).
Qed.

(** C10. When the read of the watermark store raises, the error is logged
    and swallowed, and the read gives the 24-hour default with the empty
    cursor, whatever watermark the store holds. *)
Theorem read_error_rewinds_watermark (object_type : string) (w : World)
    (fs : list bool) :
  faults w = true :: fs ->
  exists w', get_last_sync_time object_type w
             = Some (Ok (clock w - one_day, Some EmptyString), w')
             /\ trace w' = (trace w ++ [EvSelectState object_type false;
                                        EvOut MsgWarnLastSync])%list
             /\ sync_state w' = sync_state w.
Proof.
  intros Hf. unfold get_last_sync_time, sync_state_select. run_monad.
  rewrite Hf. simpl. eexists. split; [reflexivity|]. simpl.
  split; [|reflexivity]. by rewrite <- app_assoc.
Qed.

(** A stored time that [fromisoformat] rejects has the same effect. *)
Lemma unreadable_time_rewinds_watermark (object_type : string) (w : World)
    (row : SyncRow) :
  hd false (faults w) = false ->
  sync_state w !! object_type = Some row ->
  last_sync_time row = None ->
  exists w', get_last_sync_time object_type w
             = Some (Ok (clock w - one_day, Some EmptyString), w')
             /\ sync_state w' = sync_state w.
Proof.
  intros Hf Hrow Ht. unfold get_last_sync_time, sync_state_select. run_monad.
  destruct (faults w) as [|[] fs]; simpl in *; try discriminate;
    rewrite Hrow; simpl; rewrite Ht; simpl;
    eexists; (split; reflexivity).
Qed.

(** A stored watermark that reads well is returned as it is. *)
Lemma get_last_sync_time_stored (object_type : string) (w : World)
    (row : SyncRow) (t : Z) :
  hd false (faults w) = false ->
  sync_state w !! object_type = Some row ->
  last_sync_time row = Some t ->
  exists w', get_last_sync_time object_type w
             = Some (Ok (t, sync_cursor row), w')
             /\ sync_state w' = sync_state w.
Proof.
  intros Hf Hrow Ht. unfold get_last_sync_time, sync_state_select. run_monad.
  destruct (faults w) as [|[] fs]; simpl in *; try discriminate;
    rewrite Hrow; simpl; rewrite Ht; simpl;
    eexists; (split; reflexivity).
Qed.

(** ** The path to the table check *)

Arguments export_properties : simpl never.

Lemma same_stores_refl (w : World) : same_stores w w.
Proof. by split. Qed.

Lemma same_stores_trans (w1 w2 w3 : World) :
  same_stores w1 w2 -> same_stores w2 w3 -> same_stores w1 w3.
Proof. intros [] []. split; congruence. Qed.

(** [export_object_type] up to the table check: two calls to Supabase,
    no change to the stores. *)
Lemma export_object_type_prefix (object_type : string)
    (properties : list string) (batch_size : nat) (w : World) :
  exists w1 t evs,
    export_object_type object_type (Some properties) batch_size w
    = export_properties object_type ("hubspot_" ++ object_type) t properties
        batch_size w1
    /\ trace w1 = (trace w ++ evs)%list
    /\ forallb no_fetch_or_load evs = true
    /\ same_stores w w1
    /\ faults w1 = drop 2 (faults w).
Proof.
  unfold export_object_type, create_sync_state_table, supabase_rpc,
    get_last_sync_time, sync_state_select. run_monad.
  destruct w as [ck fl hs cat st tb fi tr]; simpl.
  destruct fl as [|[] [|[] fl]]; simpl;
    try (destruct (st !! object_type) as [[[t|] c u]|]; simpl);
    do 3 eexists; (split; [reflexivity|]); simpl;
    rewrite <- ?app_assoc; simpl;
    (split; [reflexivity|]); (split; [reflexivity|]);
    (split; [by split|reflexivity]).
Qed.

(** ** Schema reconciler *)

(** [create_supabase_table] prints the script, writes it to
    [create_<table>.sql] and returns [False]; it raises when the file
    cannot be written. *)
Lemma create_supabase_table_spec (table_name : string)
    (properties : list string) (w : World) :
  let create_sql := create_sql_of table_name properties in
  let sql_filename := "create_" ++ table_name ++ ".sql" in
  exists w' ok,
    ok = negb (hd false (faults w))
    /\ create_supabase_table table_name properties w
       = Some ((if ok : bool then Ok false else Raise OSError), w')
    /\ trace w'
       = (trace w ++ [EvOut (MsgPleaseExecute table_name create_sql);
                      EvWriteFile sql_filename create_sql ok]
            ++ (if ok then [EvOut (MsgSqlSaved sql_filename)] else []))%list
    /\ (ok = true -> files w' !! sql_filename = Some create_sql)
    /\ hubspot w' = hubspot w
    /\ sync_state w' = sync_state w.
Proof.
  intros create_sql sql_filename.
  unfold create_supabase_table, file_write. run_monad.
  fold create_sql. fold sql_filename.
  destruct w as [ck fl hs cat st tb fi tr]; simpl.
  destruct fl as [|[] fl]; simpl; do 2 eexists;
    (split; [reflexivity|]); (split; [reflexivity|]); simpl;
    rewrite <- ?app_assoc; simpl;
    (split; [reflexivity|]); (split; [|split; reflexivity]);
    intros; try discriminate; apply lookup_insert_eq.
Qed.

Lemma check_supabase_table_missing (table_name : string) (w : World) :
  table_name ∉ tables w ->
  exists w', check_supabase_table_exists table_name w = Some (Ok false, w')
    /\ trace w' = (trace w ++ [EvProbe table_name false])%list
    /\ same_stores w w'
    /\ faults w' = drop 1 (faults w).
Proof.
  intros Hmiss. unfold check_supabase_table_exists, table_probe. run_monad.
  destruct w as [ck fl hs cat st tb fi tr]; simpl in *.
  destruct fl as [|[] fl]; simpl;
    rewrite ?(bool_decide_eq_false_2 _ Hmiss); simpl;
    eexists; (split; [reflexivity|]); simpl;
    (split; [reflexivity|]); (split; [by split|reflexivity]).
Qed.

Lemma export_properties_missing_table (object_type table_name : string)
    (t : Z) (properties : list string) (batch_size : nat) (w : World) :
  table_name ∉ tables w ->
  let create_sql := create_sql_of table_name properties in
  let sql_filename := "create_" ++ table_name ++ ".sql" in
  exists w' ok,
    ok = negb (hd false (drop 1 (faults w)))
    /\ export_properties object_type table_name t properties batch_size w
       = Some ((if ok : bool then Ok tt else Raise OSError), w')
    /\ trace w'
       = (trace w ++ [EvProbe table_name false;
                      EvOut (MsgPleaseExecute table_name create_sql);
                      EvWriteFile sql_filename create_sql ok]
            ++ (if ok then [EvOut (MsgSqlSaved sql_filename)] else []))%list
    /\ (ok = true -> files w' !! sql_filename = Some create_sql)
    /\ hubspot w' = hubspot w
    /\ sync_state w' = sync_state w
    /\ clock w' = clock w
    /\ faults w' = drop 2 (faults w).
Proof.
  intros Hmiss create_sql sql_filename.
  unfold export_properties, check_supabase_table_exists, table_probe,
    create_supabase_table, file_write. run_monad.
  fold create_sql. fold sql_filename.
  destruct w as [ck fl hs cat st tb fi tr]; simpl in *.
  destruct fl as [|[] [|[] fl]]; simpl;
    rewrite ?(bool_decide_eq_false_2 _ Hmiss); simpl;
    do 2 eexists; (split; [reflexivity|]); (split; [reflexivity|]); simpl;
    rewrite <- ?app_assoc; simpl;
    (split; [reflexivity|]);
    (split; [intros; try discriminate; apply lookup_insert_eq|]);
    repeat split.
Qed.

(** The script, written out: the fixed columns in the order of the
    source, then the column of each property, its name between double
    quotes; the columns one per line, indented by four spaces and
    separated by commas, between the [CREATE TABLE] line and the closing
    line. *)
Lemma table_columns_text (properties : list string) :
  let Q := String "034"%char EmptyString in
  table_columns properties
  = ([ "id SERIAL PRIMARY KEY";
        "hubspot_id TEXT NOT NULL UNIQUE";
        "created_at TIMESTAMPTZ";
        "updated_at TIMESTAMPTZ";
        "archived BOOLEAN DEFAULT FALSE";
        "raw_properties JSONB" ]
       ++ map (fun prop => (Q ++ col_name_create prop ++ Q ++ " TEXT")%string)
            properties)%list.
Proof. intros Q. unfold table_columns. by rewrite table_columns_app. Qed.

Lemma create_sql_text (table_name : string) (properties : list string) :
  let NL := String "010"%char EmptyString in
  let Q := String "034"%char EmptyString in
  create_sql_of table_name properties
  = "CREATE TABLE " ++ table_name ++ " (" ++ NL ++ "    "
    ++ PyStr.join ("," ++ NL ++ "    ")
         ([ "id SERIAL PRIMARY KEY";
        "hubspot_id TEXT NOT NULL UNIQUE";
        "created_at TIMESTAMPTZ";
        "updated_at TIMESTAMPTZ";
        "archived BOOLEAN DEFAULT FALSE";
        "raw_properties JSONB" ]
            ++ map (fun prop =>
                      (Q ++ col_name_create prop ++ Q ++ " TEXT")%string)
                 properties)%list
    ++ NL ++ ");".
Proof.
  intros NL Q. unfold create_sql_of.
  by rewrite (table_columns_text properties).
Qed.

(** C7. When the destination table of an object type is absent, the
    columns derived are the fixed ones (a surrogate [id] key, then the
    identity key [hubspot_id], [created_at], [updated_at], the [archived]
    flag and the [raw_properties] blob) followed by one [TEXT] column per
    property, named by its sanitised name between double quotes; the
    script is [CREATE TABLE <table> (], these columns one per line, and
    [);]; [create_supabase_table] writes it to [create_<table>.sql] and
    returns [False]; the sync of that object type then stops: no page is
    requested and no row is upserted. (When the file cannot be written the
    [OSError] leaves [export_object_type], again with no fetch and no
    load.) *)
Theorem missing_table_halts_sync (object_type : string)
    (properties : list string) (batch_size : nat) (w : World) :
  ("hubspot_" ++ object_type) ∉ tables w ->
  let table_name := "hubspot_" ++ object_type in
  let create_sql := create_sql_of table_name properties in
  let sql_filename := "create_" ++ table_name ++ ".sql" in
  let NL := String "010"%char EmptyString in
  let Q := String "034"%char EmptyString in
  let columns :=
    ([ "id SERIAL PRIMARY KEY";
        "hubspot_id TEXT NOT NULL UNIQUE";
        "created_at TIMESTAMPTZ";
        "updated_at TIMESTAMPTZ";
        "archived BOOLEAN DEFAULT FALSE";
        "raw_properties JSONB" ]
       ++ map (fun prop => (Q ++ col_name_create prop ++ Q ++ " TEXT")%string)
            properties)%list in
  table_columns properties = columns
  /\ create_sql
     = "CREATE TABLE " ++ table_name ++ " (" ++ NL ++ "    "
       ++ PyStr.join ("," ++ NL ++ "    ") columns ++ NL ++ ");"
  /\ create_sql_of "hubspot_contacts" ["email"; "Lead Status!"]
     = "CREATE TABLE hubspot_contacts (" ++ NL
       ++ "    id SERIAL PRIMARY KEY," ++ NL
       ++ "    hubspot_id TEXT NOT NULL UNIQUE," ++ NL
       ++ "    created_at TIMESTAMPTZ," ++ NL
       ++ "    updated_at TIMESTAMPTZ," ++ NL
       ++ "    archived BOOLEAN DEFAULT FALSE," ++ NL
       ++ "    raw_properties JSONB," ++ NL
       ++ "    " ++ Q ++ "email" ++ Q ++ " TEXT," ++ NL
       ++ "    " ++ Q ++ "lead_status_" ++ Q ++ " TEXT" ++ NL
       ++ ");"
  /\ (forall w0 r w0', create_supabase_table table_name properties w0
                       = Some (Ok r, w0') ->
                       r = false /\ files w0' !! sql_filename = Some create_sql)
  /\ exists w' ok evs,
      ok = negb (hd false (drop 3 (faults w)))
      /\ export_object_type object_type (Some properties) batch_size w
         = Some ((if ok : bool then Ok tt else Raise OSError), w')
      /\ trace w' = (trace w ++ evs)%list
      /\ EvWriteFile sql_filename create_sql ok ∈ evs
      /\ forallb no_fetch_or_load evs = true
      /\ hubspot w' = hubspot w
      /\ (ok = true -> files w' !! sql_filename = Some create_sql).
Proof.
  intros Hmiss table_name create_sql sql_filename NL Q columns.
  split; [apply table_columns_text|].
  split; [apply create_sql_text|].
  split; [vm_compute; reflexivity|]. split.
  - intros w0 r w0' Hrun.
    destruct (create_supabase_table_spec table_name properties w0)
      as (w1 & ok & _ & Hspec & _ & Hfile & _).
    rewrite Hrun in Hspec. destruct ok; [|discriminate].
    injection Hspec as -> ->. split; [reflexivity|by apply Hfile].
  - destruct (export_object_type_prefix object_type properties batch_size w)
      as (w1 & t & evs1 & Hrun1 & Htr1 & Hq1 & Hss & Hf1).
    destruct (export_properties_missing_table object_type table_name t
                properties batch_size w1)
      as (w2 & ok & Hok & Hrun2 & Htr2 & Hfile & Hhs & _ & _ & _).
    { by rewrite (ss_tables _ _ Hss). }
    exists w2, ok. eexists. split.
    { rewrite Hok, Hf1. by rewrite drop_drop. }
    split; [by rewrite Hrun1|]. split.
    { rewrite Htr2, Htr1, <- app_assoc. reflexivity. }
    split; [|split; [|split]].
    + apply elem_of_app. right. apply elem_of_app. left. set_solver.
    + rewrite forallb_app, Hq1. by destruct ok.
    + by rewrite Hhs, (ss_hubspot _ _ Hss).
    + exact Hfile.
Qed.

(** ** Batch loader *)

Ltac run_goal :=
  unfold try_except, mbind, M_bind, bind, out, emit, now, gets, modify,
    pop_fault, ret, raise; simpl.

Lemma upserts_app (tr1 tr2 : list Event) :
  upserts (tr1 ++ tr2) = (upserts tr1 ++ upserts tr2)%list.
Proof. apply omap_app. Qed.

Lemma count_ok_app (l1 l2 : list (list Row * bool)) :
  count_ok (l1 ++ l2) = (count_ok l1 + count_ok l2)%nat.
Proof. unfold count_ok. by rewrite List.filter_app, length_app. Qed.

Lemma count_ok_le (l : list (list Row * bool)) :
  (count_ok l <= length l)%nat.
Proof. unfold count_ok. apply List.filter_length_le. Qed.

(** One row of the fallback: the upsert is attempted, and the loop
    variable counts it when it succeeds. *)
Lemma upsert_single_spec (table_name : string) (success_count idx : nat)
    (record : Row) (w : World) :
  exists w' ok evs,
    ok = negb (hd false (faults w))
    /\ upsert_single table_name success_count (idx, record) w
       = Some (Ok (if ok then S success_count else success_count), w')
    /\ trace w' = (trace w ++ evs)%list
    /\ upserts evs = [([record], ok)]
    /\ same_stores w w'
    /\ faults w' = drop 1 (faults w).
Proof.
  unfold upsert_single, table_upsert. run_goal.
  destruct w as [ck fl hs cat st tb fi tr]; simpl.
  destruct fl as [|[] fl]; simpl; do 3 eexists;
    (split; [reflexivity|]); simpl; rewrite ?Nat.add_1_r;
    (split; [reflexivity|]); simpl; rewrite <- ?app_assoc;
    (split; [reflexivity|]); (split; [reflexivity|]);
    (split; [by split|reflexivity]).
Qed.

(** The fallback loop: every row is attempted, in order. *)
Lemma upsert_rows_spec (table_name : string) (rows : list Row) :
  forall (idx0 success_count : nat) (w : World),
  exists w' evs,
    for_fold (combine (seq idx0 (length rows)) rows)
      (upsert_single table_name) success_count w
    = Some (Ok (success_count + count_ok (upserts evs))%nat, w')
    /\ trace w' = (trace w ++ evs)%list
    /\ (upserts evs).*1 = (fun r => [r]) <$> rows
    /\ same_stores w w'.
Proof.
  induction rows as [|r rows IH]; intros idx0 success_count w;
    cbn [length seq combine for_fold].
  - exists w, []. run_goal. rewrite Nat.add_0_r, app_nil_r.
    repeat split; reflexivity.
  - destruct (upsert_single_spec table_name success_count idx0 r w)
      as (w1 & ok & evs1 & Hok & Hrun & Htr & Hup & Hss & _).
    destruct (IH (S idx0) (if ok then S success_count else success_count) w1)
      as (w2 & evs2 & Hrun2 & Htr2 & Hup2 & Hss2).
    exists w2, (evs1 ++ evs2)%list.
    unfold mbind, M_bind, bind. rewrite Hrun, Hrun2.
    rewrite upserts_app, count_ok_app, Hup, fmap_app, Hup2.
    split; [|split; [|split]].
    + do 3 f_equal. unfold count_ok at 2. simpl. destruct ok; simpl; lia.
    + by rewrite Htr2, Htr, <- app_assoc.
    + reflexivity.
    + by eapply same_stores_trans.
Qed.

Arguments standardized_batch_of : simpl never.
Arguments slice : simpl never.
Arguments upsert_one_by_one : simpl never.

Lemma upsert_one_by_one_spec (table_name : string) (rows : list Row)
    (w : World) :
  exists w' evs,
    upsert_one_by_one table_name rows w
    = Some (Ok (count_ok (upserts evs)), w')
    /\ trace w' = (trace w ++ evs)%list
    /\ (upserts evs).*1 = (fun r => [r]) <$> rows
    /\ same_stores w w'.
Proof. apply (upsert_rows_spec table_name rows 1 0 w). Qed.

(** A batch whose bulk upsert fails. *)
Lemma load_batch_fallback (table_name : string) (records : list Row)
    (batch_size total_batches i : nat) (w : World) (fs : list bool) :
  faults w = true :: fs ->
  let padded := standardized_batch_of (slice records i batch_size) in
  exists w' evs,
    load_batch table_name records batch_size total_batches i w
    = Some (Ok tt, w')
    /\ trace w'
       = (trace w
            ++ [EvUpsert table_name padded false;
                EvOut (MsgBatchErr (i / batch_size + 1) total_batches)]
            ++ evs
            ++ [EvOut (MsgFallbackCount (count_ok (upserts evs))
                         (length padded))])%list
    /\ (upserts evs).*1 = (fun r => [r]) <$> padded
    /\ same_stores w w'.
Proof.
  intros Hf padded. unfold load_batch, table_upsert. fold padded. run_goal.
  rewrite Hf. simpl.
  match goal with |- context [upsert_one_by_one _ _ ?w1] =>
    destruct (upsert_one_by_one_spec table_name padded w1)
      as (w2 & evs & Hrun & Htr & Hup & Hss)
  end.
  rewrite Hrun. simpl. do 2 eexists. split; [reflexivity|]. simpl.
  split; [|split; [exact Hup|]].
  - rewrite Htr. simpl. by rewrite <- !app_assoc.
  - destruct Hss as [? ? ? ? ? ?]. simpl in *. by split.
Qed.

(** A batch whose bulk upsert succeeds. *)
Lemma load_batch_bulk (table_name : string) (records : list Row)
    (batch_size total_batches i : nat) (w : World) :
  hd false (faults w) = false ->
  let batch := slice records i batch_size in
  exists w',
    load_batch table_name records batch_size total_batches i w
    = Some (Ok tt, w')
    /\ trace w'
       = (trace w
            ++ [EvUpsert table_name (standardized_batch_of batch) true;
                EvOut (MsgBatchOk (i / batch_size + 1) total_batches
                         (length batch))])%list
    /\ same_stores w w'.
Proof.
  intros Hf batch. unfold load_batch, table_upsert. fold batch. run_goal.
  destruct w as [ck fl hs cat st tb fi tr]; simpl in *.
  destruct fl as [|[] fl]; simpl in *; try discriminate;
    eexists; (split; [reflexivity|]); simpl; rewrite <- ?app_assoc;
    (split; [reflexivity|by split]).
Qed.

(** Whatever the outcome of its upserts, a batch ends without raising,
    after a bulk attempt on its padded rows. *)
Lemma load_batch_returns (table_name : string) (records : list Row)
    (batch_size total_batches i : nat) (w : World) :
  exists w' ok evs,
    load_batch table_name records batch_size total_batches i w
    = Some (Ok tt, w')
    /\ trace w'
       = (trace w
            ++ EvUpsert table_name
                 (standardized_batch_of (slice records i batch_size)) ok
            :: evs)%list
    /\ same_stores w w'.
Proof.
  destruct (hd false (faults w)) eqn:Hf.
  - destruct (faults w) as [|[] fs] eqn:Hfs; simpl in Hf; try discriminate.
    destruct (load_batch_fallback table_name records batch_size total_batches
                i w fs Hfs) as (w' & evs & Hrun & Htr & _ & Hss).
    exists w', false. eexists. split; [exact Hrun|]. split; [|exact Hss].
    rewrite Htr. reflexivity.
  - destruct (load_batch_bulk table_name records batch_size total_batches
                i w Hf) as (w' & Hrun & Htr & Hss).
    exists w', true. eexists. split; [exact Hrun|]. split; [|exact Hss].
    rewrite Htr. reflexivity.
Qed.

(** The loop over the batches attempts every batch. *)
Lemma load_batches_attempt_all (table_name : string) (records : list Row)
    (batch_size total_batches : nat) (starts : list nat) :
  forall w : World,
  exists w' evs,
    for_each starts (load_batch table_name records batch_size total_batches) w
    = Some (Ok tt, w')
    /\ trace w' = (trace w ++ evs)%list
    /\ same_stores w w'
    /\ forall i, i ∈ starts ->
         exists ok,
           EvUpsert table_name
             (standardized_batch_of (slice records i batch_size)) ok ∈ evs.
Proof.
  induction starts as [|i starts IH]; intros w; cbn [for_each].
  - exists w, []. run_goal. rewrite app_nil_r.
    repeat split; try reflexivity. intros i Hi. by apply elem_of_nil in Hi.
  - destruct (load_batch_returns table_name records batch_size total_batches
                i w) as (w1 & ok & evs1 & Hrun & Htr & Hss).
    destruct (IH w1) as (w2 & evs2 & Hrun2 & Htr2 & Hss2 & Hall).
    unfold mbind, M_bind, bind. rewrite Hrun.
    eexists w2, _. split; [exact Hrun2|]. split; [|split].
    + rewrite Htr2, Htr, <- app_assoc. reflexivity.
    + by eapply same_stores_trans.
    + intros j Hj. apply elem_of_cons in Hj as [->|Hj].
      * exists ok. apply elem_of_app. left. left.
      * destruct (Hall j Hj) as [ok' Hin]. exists ok'.
        apply elem_of_app. by right.
Qed.

(** C6. When the bulk upsert of a batch fails, every row of the padded
    batch is upserted on its own, in order, whatever the outcome of the
    other rows; the count reported is the number of rows that succeeded,
    at most the number attempted; the batch ends without raising, so the
    loop goes on with the next batch. *)
Theorem bulk_failure_falls_back (table_name : string) (records : list Row)
    (batch_size total_batches i : nat) (w : World) (fs : list bool) :
  faults w = true :: fs ->
  let padded := standardized_batch_of (slice records i batch_size) in
  exists w' evs success_count,
    load_batch table_name records batch_size total_batches i w
    = Some (Ok tt, w')
    /\ trace w'
       = (trace w
            ++ [EvUpsert table_name padded false;
                EvOut (MsgBatchErr (i / batch_size + 1) total_batches)]
            ++ evs
            ++ [EvOut (MsgFallbackCount success_count (length padded))])%list
    /\ (upserts evs).*1 = (fun r => [r]) <$> padded
    /\ success_count = count_ok (upserts evs)
    /\ (success_count <= length padded)%nat
    /\ forall rest,
        for_each (i :: rest)
          (load_batch table_name records batch_size total_batches) w
        = for_each rest
            (load_batch table_name records batch_size total_batches) w'.
Proof.
  intros Hf padded.
  destruct (load_batch_fallback table_name records batch_size total_batches
              i w fs Hf) as (w' & evs & Hrun & Htr & Hup & _).
  exists w', evs, (count_ok (upserts evs)).
  split; [exact Hrun|]. split; [exact Htr|]. split; [exact Hup|].
  split; [reflexivity|]. split.
  - etransitivity; [apply count_ok_le|].
    rewrite <- (length_fmap fst), Hup, length_fmap. reflexivity.
  - intros rest. cbn [for_each]. unfold mbind, M_bind, bind.
    by rewrite Hrun.
Qed.

(** ** What leaves the watermark store alone *)

Section Keeps.

Context {A B : Type}.

Lemma keeps_ret (a : A) : keeps_watermarks (ret a).
Proof. intros w r w' H. unfold ret in H. by simplify_eq. Qed.

Lemma keeps_mret (a : A) : keeps_watermarks (mret a : M A).
Proof. apply keeps_ret. Qed.

Lemma keeps_raise (e : Exn) : keeps_watermarks (raise e : M A).
Proof. intros w r w' H. unfold raise in H. by simplify_eq. Qed.

Lemma keeps_diverge : keeps_watermarks (diverge : M A).
Proof. intros w r w' H. discriminate. Qed.

Lemma keeps_gets (f : World -> A) : keeps_watermarks (gets f).
Proof. intros w r w' H. unfold gets in H. by simplify_eq. Qed.

Lemma keeps_bind (m : M A) (k : A -> M B) :
  keeps_watermarks m -> (forall a, keeps_watermarks (k a)) ->
  keeps_watermarks (m ≫= k).
Proof.
  intros Hm Hk w r w' H. unfold mbind, M_bind, bind in H.
  destruct (m w) as [[[a|e] w1]|] eqn:E; try discriminate.
  - rewrite (Hk a _ _ _ H). by eapply Hm.
  - simplify_eq. by eapply Hm.
Qed.

Lemma keeps_try (m : M A) (h : Exn -> M A) :
  keeps_watermarks m -> (forall e, keeps_watermarks (h e)) ->
  keeps_watermarks (try_except m h).
Proof.
  intros Hm Hh w r w' H. unfold try_except in H.
  destruct (m w) as [[[a|e] w1]|] eqn:E; try discriminate.
  - simplify_eq. by eapply Hm.
  - rewrite (Hh e _ _ _ H). by eapply Hm.
Qed.

End Keeps.

Lemma keeps_emit (e : Event) : keeps_watermarks (emit e).
Proof. intros w r w' H. unfold emit in H. by simplify_eq. Qed.

Lemma keeps_out (m : Msg) : keeps_watermarks (out m).
Proof. apply keeps_emit. Qed.

Lemma keeps_now : keeps_watermarks now.
Proof. apply keeps_gets. Qed.

Lemma keeps_pop_fault : keeps_watermarks pop_fault.
Proof.
  intros w r w' H. unfold pop_fault in H.
  destruct (faults w); by simplify_eq.
Qed.

Lemma keeps_modify (f : World -> World) :
  (forall w, sync_state (f w) = sync_state w) -> keeps_watermarks (modify f).
Proof. intros Hf w r w' H. unfold modify in H. by simplify_eq. Qed.

Lemma keeps_requests_get (object_type : string) (limit : Z)
    (properties after : option string) (since : option Z) :
  keeps_watermarks (requests_get object_type limit properties after since).
Proof.
  intros w r w' H. unfold requests_get in H.
  destruct (hubspot w) as [|[] rs]; by simplify_eq.
Qed.

Create HintDb keeps.

#[local] Hint Resolve keeps_ret keeps_mret keeps_raise keeps_diverge keeps_gets
  keeps_emit keeps_out keeps_now keeps_pop_fault keeps_requests_get : keeps.

Ltac keeps_step :=
  match goal with
  | |- keeps_watermarks (_ ≫= _) => apply keeps_bind; [|intros]
  | |- keeps_watermarks (try_except _ _) => apply keeps_try; [|intros]
  | |- keeps_watermarks (modify _) => apply keeps_modify; intros; reflexivity
  | |- keeps_watermarks (if ?b then _ else _) => destruct b
  | |- keeps_watermarks (match ?x with _ => _ end) => destruct x
  | |- keeps_watermarks _ => solve [eauto with keeps]
  end.

Ltac keeps := repeat keeps_step.

Lemma keeps_supabase_rpc : keeps_watermarks supabase_rpc.
Proof. unfold supabase_rpc. keeps. Qed.

Lemma keeps_sync_state_select (object_type : string) :
  keeps_watermarks (sync_state_select object_type).
Proof. unfold sync_state_select. keeps. Qed.

Lemma keeps_table_probe (table_name : string) :
  keeps_watermarks (table_probe table_name).
Proof. unfold table_probe. keeps. Qed.

Lemma keeps_table_upsert (table_name : string) (rows : list Row) :
  keeps_watermarks (table_upsert table_name rows).
Proof. unfold table_upsert. keeps. Qed.

Lemma keeps_file_write (filename content : string) :
  keeps_watermarks (file_write filename content).
Proof. unfold file_write. keeps. Qed.

Lemma keeps_properties_get (object_type : string) :
  keeps_watermarks (properties_get object_type).
Proof. unfold properties_get. keeps. Qed.

Lemma keeps_sleep (seconds : Z) : keeps_watermarks (sleep seconds).
Proof. unfold sleep. keeps. Qed.

#[local] Hint Resolve keeps_supabase_rpc keeps_sync_state_select
  keeps_table_probe keeps_table_upsert keeps_file_write keeps_properties_get
  keeps_sleep : keeps.

Lemma keeps_for_each {A} (l : list A) (body : A -> M unit) :
  (forall x, keeps_watermarks (body x)) -> keeps_watermarks (for_each l body).
Proof. intros Hb. induction l; cbn [for_each]; keeps. Qed.

Lemma keeps_for_fold {A S} (l : list A) (body : S -> A -> M S) :
  (forall s x, keeps_watermarks (body s x)) ->
  forall s, keeps_watermarks (for_fold l body s).
Proof. intros Hb. induction l; intros s; cbn [for_fold]; keeps. Qed.

Lemma keeps_get_all_properties (object_type : string) :
  keeps_watermarks (get_all_properties object_type).
Proof. unfold get_all_properties. keeps. Qed.

Lemma keeps_get_last_sync_time (object_type : string) :
  keeps_watermarks (get_last_sync_time object_type).
Proof. unfold get_last_sync_time. keeps. Qed.

Lemma keeps_fetch_iteration (object_type : string)
    (properties : option (list string)) (limit : nat)
    (last_sync_time : option Z) (after : option string)
    (all_objects : list SourceObj) :
  keeps_watermarks
    (fetch_iteration object_type properties limit last_sync_time after
       all_objects).
Proof. unfold fetch_iteration. keeps. Qed.

#[local] Hint Resolve keeps_fetch_iteration keeps_get_all_properties
  keeps_get_last_sync_time : keeps.

Lemma keeps_fetch_loop (fuel : nat) (object_type : string)
    (properties : option (list string)) (limit : nat)
    (last_sync_time : option Z) :
  forall (after : option string) (all_objects : list SourceObj),
    keeps_watermarks
      (fetch_loop fuel object_type properties limit last_sync_time after
         all_objects).
Proof. induction fuel; intros after all_objects; cbn [fetch_loop]; keeps. Qed.

Lemma keeps_get_hubspot_objects (object_type : string)
    (properties : option (list string)) (limit : nat)
    (last_sync_time : option Z) :
  keeps_watermarks
    (get_hubspot_objects object_type properties limit last_sync_time).
Proof.
  unfold get_hubspot_objects. keeps. apply keeps_fetch_loop.
Qed.

Lemma keeps_check_supabase_table_exists (table_name : string) :
  keeps_watermarks (check_supabase_table_exists table_name).
Proof. unfold check_supabase_table_exists. keeps. Qed.

Lemma keeps_create_supabase_table (table_name : string)
    (properties : list string) :
  keeps_watermarks (create_supabase_table table_name properties).
Proof. unfold create_supabase_table. keeps. Qed.

Lemma keeps_create_sync_state_table : keeps_watermarks create_sync_state_table.
Proof. unfold create_sync_state_table. keeps. Qed.

Lemma keeps_build_records (object_type : string) (objects : list SourceObj)
    (properties : list string) :
  keeps_watermarks (build_records object_type objects properties).
Proof. unfold build_records. apply keeps_for_fold. intros. keeps. Qed.

Lemma keeps_upsert_one_by_one (table_name : string) (rows : list Row) :
  keeps_watermarks (upsert_one_by_one table_name rows).
Proof.
  unfold upsert_one_by_one. apply keeps_for_fold.
  intros s [idx record]. unfold upsert_single. keeps.
Qed.

#[local] Hint Resolve keeps_get_hubspot_objects
  keeps_check_supabase_table_exists keeps_create_supabase_table
  keeps_create_sync_state_table keeps_build_records
  keeps_upsert_one_by_one : keeps.

Lemma keeps_load_batch (table_name : string) (records : list Row)
    (batch_size total_batches i : nat) :
  keeps_watermarks (load_batch table_name records batch_size total_batches i).
Proof. unfold load_batch. keeps. Qed.

Lemma keeps_load_records (table_name : string) (records : list Row)
    (batch_size : nat) :
  keeps_watermarks (load_records table_name records batch_size).
Proof.
  unfold load_records. keeps. apply keeps_for_each. intros.
  apply keeps_load_batch.
Qed.

#[local] Hint Resolve keeps_load_records : keeps.

Lemma keeps_export_properties (object_type table_name : string) (t : Z)
    (properties : list string) (batch_size : nat) :
  keeps_watermarks
    (export_properties object_type table_name t properties batch_size).
Proof. unfold export_properties. keeps. Qed.

#[local] Hint Resolve keeps_export_properties : keeps.

(** The fetch-and-load cycle of an object type never writes the watermark
    store, whether it returns or raises. *)
Lemma keeps_export_object_type (object_type : string)
    (specific_properties : option (list string)) (batch_size : nat) :
  keeps_watermarks
    (export_object_type object_type specific_properties batch_size).
Proof. unfold export_object_type. keeps. Qed.

(** ** The top-level loop *)

Arguments export_object_type : simpl never.

Lemma update_sync_state_spec (object_type : string) (sync_time : Z)
    (w : World) :
  let row := {| last_sync_time := Some sync_time;
                sync_cursor := Some EmptyString;
                updated_at := clock w |} in
  exists w' ok,
    ok = negb (hd false (faults w))
    /\ update_sync_state object_type sync_time EmptyString w = Some (Ok tt, w')
    /\ trace w'
       = (trace w ++ EvUpsertState object_type row ok
            :: (if ok then [] else [EvOut MsgErrUpdateState]))%list
    /\ (ok = true -> sync_state w' !! object_type = Some row)
    /\ (ok = false -> sync_state w' = sync_state w).
Proof.
  intros row. unfold update_sync_state, sync_state_upsert. run_goal.
  fold row. destruct w as [ck fl hs cat st tb fi tr]; simpl in *.
  destruct fl as [|[] fl]; simpl; do 2 eexists;
    (split; [reflexivity|]); (split; [reflexivity|]); simpl;
    rewrite <- ?app_assoc;
    (split; [reflexivity|]);
    (split; intros; try discriminate; try reflexivity; apply lookup_insert_eq).
Qed.

(** After a cycle that returned, [main] logs the success and writes the
    watermark. *)
Lemma main_iteration_after_return (object_type : string)
    (properties : list string) (w w1 : World) :
  export_object_type object_type (Some properties) 100
    (processing object_type w) = Some (Ok tt, w1) ->
  exists w2 ok,
    ok = negb (hd false (faults w1))
    /\ main_iteration object_type properties w = Some (Ok tt, w2)
    /\ trace w2
       = (trace w1
            ++ [EvOut (MsgProcessed object_type);
                EvUpsertState object_type (watermark_at (clock w1)) ok]
            ++ (if ok then [] else [EvOut MsgErrUpdateState]))%list
    /\ (ok = true ->
        sync_state w2 !! object_type = Some (watermark_at (clock w1))).
Proof.
  intros Hrun. unfold main_iteration.
  unfold try_except, mbind, M_bind, bind, out, emit, now, gets. simpl.
  fold (processing object_type w). rewrite Hrun. simpl.
  match goal with |- context [update_sync_state _ ?t _ ?w1'] =>
    destruct (update_sync_state_spec object_type t w1')
      as (w2 & ok & Hok & Hup & Htr & Hst & _)
  end.
  simpl in *. rewrite Hup. exists w2, ok.
  split; [exact Hok|]. split; [reflexivity|]. split.
  - rewrite Htr. by rewrite <- app_assoc.
  - exact Hst.
Qed.

(** After a cycle that raised, [main] logs the error and leaves the
    watermark store as it was before the cycle. *)
Lemma main_iteration_after_raise (object_type : string)
    (properties : list string) (w w1 : World) (e : Exn) :
  export_object_type object_type (Some properties) 100
    (processing object_type w) = Some (Raise e, w1) ->
  exists w2,
    main_iteration object_type properties w = Some (Ok tt, w2)
    /\ trace w2 = (trace w1 ++ [EvOut (MsgErrProcessing object_type e)])%list
    /\ sync_state w2 = sync_state w.
Proof.
  intros Hrun. unfold main_iteration.
  unfold try_except, mbind, M_bind, bind, out, emit, now, gets. simpl.
  fold (processing object_type w). rewrite Hrun. simpl.
  eexists. split; [reflexivity|]. split; [reflexivity|]. simpl.
  apply (keeps_export_object_type _ _ _ _ _ _ Hrun).
Qed.

(** C3. Whenever [export_object_type] returns without raising, [main]
    calls [update_sync_state] with the current time: the upsert of the
    watermark is sent, and unless that upsert itself raises the stored
    watermark of the object type is the current time. *)
Theorem watermark_advanced_on_return (object_type : string)
    (properties : list string) (w w1 : World) :
  export_object_type object_type (Some properties) 100
    (processing object_type w) = Some (Ok tt, w1) ->
  exists w2 ok,
    ok = negb (hd false (faults w1))
    /\ main_iteration object_type properties w = Some (Ok tt, w2)
    /\ trace w2
       = (trace w1
            ++ [EvOut (MsgProcessed object_type);
                EvUpsertState object_type (watermark_at (clock w1)) ok]
            ++ (if ok then [] else [EvOut MsgErrUpdateState]))%list
    /\ (ok = true ->
        sync_state w2 !! object_type = Some (watermark_at (clock w1))).
Proof. apply main_iteration_after_return. Qed.

(** ** Remote fetcher *)

(** On a 401 the loop stops at once: the request is not repeated, and the
    records accumulated so far are returned as the result. *)
Lemma fetch_loop_unauthorized (fuel : nat) (object_type : string)
    (properties : option (list string)) (limit : nat)
    (last_sync_time : option Z) (after : option string)
    (all_objects : list SourceObj) (w : World) (retry_after : RetryAfter)
    (body : option Page) (rest : list HttpReply) :
  hubspot w = Response 401 retry_after body :: rest ->
  exists w',
    fetch_loop (S fuel) object_type properties limit last_sync_time after
      all_objects w = Some (Ok all_objects, w')
    /\ hubspot w' = rest
    /\ http_replies (drop (length (trace w)) (trace w'))
       = [Response 401 retry_after body]
    /\ outs (drop (length (trace w)) (trace w')) = [MsgInvalidToken]
    /\ sync_state w' = sync_state w
    /\ faults w' = faults w.
Proof.
  intros Hh. cbn [fetch_loop]. unfold fetch_iteration, requests_get.
  run_goal. rewrite Hh. simpl. eexists. split; [reflexivity|]. simpl.
  rewrite <- app_assoc, drop_app_length. simpl. repeat split; reflexivity.
Qed.

(** C2, the run on which the code departs from the statement: HubSpot
    answers 401 to the request of the second page. The fetch stops without
    a retry, but it returns the first page as its result; [main] logs the
    object type as processed and advances its watermark. *)
Theorem unauthorized_fetch_returns_normally :
  fst <$> get_hubspot_objects "contacts" (Some ["email"]) 100
            (Some 1700000000000000) world_unauthorized
  = Some (Ok [obj_email])
  /\ result_of_main world_unauthorized = Some (Ok tt)
  /\ http_replies (trace_after_main world_unauthorized)
     = [Response 200 NoRetryAfter (Some first_page);
        Response 401 NoRetryAfter None]
  /\ MsgInvalidToken ∈ outs (trace_after_main world_unauthorized)
  /\ MsgProcessed "contacts" ∈ outs (trace_after_main world_unauthorized)
  /\ processing_errors (trace_after_main world_unauthorized) = []
  /\ sync_state world_unauthorized !! "contacts"
     = Some (watermark_at 1700000000000000)
  /\ watermark_after_main "contacts" world_unauthorized
     = Some (watermark_at 1700003600000000).
Proof.
  repeat split; try (vm_compute; reflexivity);
    apply (bool_decide_unpack _); vm_compute; exact I.
Qed.

(** C1, the run on which the code departs from the statement: the
    transport fails on the second page. The fetch ends with the first page
    only, the cycle returns, and [main] advances the watermark of contacts
    from its value before the run to the current time. *)
Theorem aborted_fetch_advances_watermark :
  result_of_main world_fetch_aborts = Some (Ok tt)
  /\ http_replies (trace_after_main world_fetch_aborts)
     = [Response 200 NoRetryAfter (Some first_page); ConnectionError]
  /\ MsgFetchException "contacts" ∈ outs (trace_after_main world_fetch_aborts)
  /\ MsgProcessed "contacts" ∈ outs (trace_after_main world_fetch_aborts)
  /\ sync_state world_fetch_aborts !! "contacts"
     = Some (watermark_at 1700000000000000)
  /\ watermark_after_main "contacts" world_fetch_aborts
     = Some (watermark_at 1700003600000000).
Proof.
  repeat split; try (vm_compute; reflexivity);
    apply (bool_decide_unpack _); vm_compute; exact I.
Qed.

(** ** The paths on which the cycle returns early *)

(** The table is missing and the script is written: the cycle returns
    without a fetch or a load. *)
Lemma export_returns_on_missing_table (object_type : string)
    (properties : list string) (batch_size : nat) (w : World) :
  ("hubspot_" ++ object_type) ∉ tables w ->
  hd false (drop 3 (faults w)) = false ->
  exists w1 evs,
    export_object_type object_type (Some properties) batch_size w
    = Some (Ok tt, w1)
    /\ trace w1 = (trace w ++ evs)%list
    /\ forallb no_fetch_or_load evs = true
    /\ clock w1 = clock w
    /\ faults w1 = drop 4 (faults w).
Proof.
  intros Hmiss Hf.
  destruct (export_object_type_prefix object_type properties batch_size w)
    as (w1 & t & evs1 & Hrun1 & Htr1 & Hq1 & Hss & Hf1).
  destruct (export_properties_missing_table object_type
              ("hubspot_" ++ object_type) t properties batch_size w1)
    as (w2 & ok & Hok & Hrun2 & Htr2 & _ & _ & _ & Hck & Hf2).
  { by rewrite (ss_tables _ _ Hss). }
  rewrite Hf1, drop_drop in Hok. simpl in Hok. rewrite Hf in Hok. subst ok.
  exists w2. eexists. split; [by rewrite Hrun1|]. split; [|split; [|split]].
  - rewrite Htr2, Htr1, <- app_assoc. reflexivity.
  - by rewrite forallb_app, Hq1.
  - by rewrite Hck, (ss_clock _ _ Hss).
  - by rewrite Hf2, Hf1, drop_drop.
Qed.

Lemma quiet_no_upserts (l : list Event) :
  forallb no_fetch_or_load l = true -> upserts l = [].
Proof.
  induction l as [|e l IH]; [done|]. intros [He Hl]%andb_prop.
  unfold upserts in *. destruct e; simpl in *; try discriminate; by apply IH.
Qed.

Lemma quiet_no_requests (l : list Event) :
  forallb no_fetch_or_load l = true -> http_replies l = [].
Proof.
  induction l as [|e l IH]; [done|]. intros [He Hl]%andb_prop.
  unfold http_replies in *.
  destruct e; simpl in *; try discriminate; by apply IH.
Qed.

(** With the table missing, [main] still writes the watermark of the
    object type, though nothing was fetched or loaded. *)
Lemma missing_table_advances_watermark (object_type : string)
    (properties : list string) (w : World) :
  ("hubspot_" ++ object_type) ∉ tables w ->
  faults w = [] ->
  exists w2,
    main_iteration object_type properties w = Some (Ok tt, w2)
    /\ sync_state w2 !! object_type = Some (watermark_at (clock w))
    /\ upserts (drop (length (trace w)) (trace w2)) = []
    /\ http_replies (drop (length (trace w)) (trace w2)) = [].
Proof.
  intros Hmiss Hf.
  destruct (export_returns_on_missing_table object_type properties 100
              (processing object_type w))
    as (w1 & evs & Hrun & Htr & Hq & Hck & Hf1); [done|simpl; by rewrite Hf|].
  destruct (main_iteration_after_return _ _ _ _ Hrun)
    as (w2 & ok & Hok & Hmain & Htr2 & Hst).
  simpl in Hf1. rewrite Hf in Hf1. rewrite Hf1 in Hok. simpl in Hok. subst ok.
  exists w2. split; [exact Hmain|]. split.
  - rewrite Hst by reflexivity. by rewrite Hck.
  - rewrite Htr2, Htr. simpl. rewrite <- !app_assoc, drop_app_length.
    simpl. rewrite upserts_app. unfold http_replies at 1. rewrite omap_app.
    fold (http_replies evs). rewrite (quiet_no_upserts _ Hq).
    rewrite (quiet_no_requests _ Hq). by split.
Qed.

(** No property is known for the object type: the cycle returns. *)
Lemma export_returns_without_properties (object_type : string)
    (batch_size : nat) (w : World) :
  catalog w !! object_type = None ->
  exists w1,
    export_object_type object_type None batch_size w = Some (Ok tt, w1)
    /\ MsgNoProperties object_type ∈ outs (drop (length (trace w)) (trace w1)).
Proof.
  intros Hcat.
  unfold export_object_type, create_sync_state_table, supabase_rpc,
    get_last_sync_time, sync_state_select, get_all_properties, properties_get.
  run_goal.
  destruct w as [ck fl hs cat st tb fi tr]; simpl in *.
  destruct fl as [|[] [|[] [|[] fl]]]; simpl;
    try (destruct (st !! object_type) as [[[t|] c u]|]; simpl);
    rewrite ?Hcat; simpl;
    eexists; (split; [reflexivity|]); simpl;
    rewrite <- ?app_assoc, drop_app_length; simpl; set_solver.
Qed.

(** The table exists and HubSpot answers 401 to the first request: the
    fetch gives no object, and the cycle returns. *)
Lemma export_properties_unauthorized (object_type table_name : string)
    (t : Z) (properties : list string) (batch_size : nat) (w : World)
    (retry_after : RetryAfter) (body : option Page) (rest : list HttpReply) :
  table_name ∈ tables w ->
  faults w = [] ->
  hubspot w = Response 401 retry_after body :: rest ->
  exists w',
    export_properties object_type table_name t properties batch_size w
    = Some (Ok tt, w')
    /\ outs (drop (length (trace w)) (trace w'))
       = [MsgTableExists table_name; MsgFetching object_type;
          MsgInvalidToken; MsgNoObjects object_type]
    /\ upserts (drop (length (trace w)) (trace w')) = []
    /\ hubspot w' = rest
    /\ clock w' = clock w
    /\ faults w' = [].
Proof.
  intros Htab Hf Hh.
  unfold export_properties, check_supabase_table_exists, table_probe,
    get_hubspot_objects.
  run_goal. rewrite Hf. simpl. rewrite (bool_decide_eq_true_2 _ Htab). simpl.
  rewrite Hh. cbn [length fetch_loop].
  unfold fetch_iteration, requests_get. run_goal. rewrite Hh. simpl.
  eexists. split; [reflexivity|]. simpl.
  rewrite <- !app_assoc, drop_app_length. simpl.
  repeat split; try reflexivity. exact Hf.
Qed.

(** In that case too [main] logs the object type as processed and writes
    its watermark. *)
Lemma unauthorized_advances_watermark (object_type : string)
    (properties : list string) (w : World) (retry_after : RetryAfter)
    (body : option Page) (rest : list HttpReply) :
  ("hubspot_" ++ object_type) ∈ tables w ->
  faults w = [] ->
  hubspot w = Response 401 retry_after body :: rest ->
  exists w2,
    main_iteration object_type properties w = Some (Ok tt, w2)
    /\ sync_state w2 !! object_type = Some (watermark_at (clock w))
    /\ MsgProcessed object_type ∈ outs (trace w2).
Proof.
  intros Htab Hf Hh.
  destruct (export_object_type_prefix object_type properties 100
              (processing object_type w))
    as (w1 & t & evs1 & Hrun1 & Htr1 & Hq1 & Hss & Hf1).
  simpl in Hf1. rewrite Hf in Hf1. simpl in Hf1.
  destruct (export_properties_unauthorized object_type
              ("hubspot_" ++ object_type) t properties 100 w1 retry_after
              body rest)
    as (w1' & Hrun2 & _ & _ & _ & Hck & Hf2).
  { by rewrite (ss_tables _ _ Hss). }
  { exact Hf1. }
  { by rewrite (ss_hubspot _ _ Hss). }
  rewrite <- Hrun1 in Hrun2.
  destruct (main_iteration_after_return _ _ _ _ Hrun2)
    as (w2 & ok & Hok & Hmain & Htr2 & Hst).
  rewrite Hf2 in Hok. simpl in Hok. subst ok.
  exists w2. split; [exact Hmain|]. split.
  - rewrite Hst by reflexivity. by rewrite Hck, (ss_clock _ _ Hss).
  - rewrite Htr2. unfold outs. rewrite omap_app. apply elem_of_app. right.
    simpl. left.
Qed.

(** The loader attempts every batch and never raises, for a positive
    batch size. *)
Lemma load_records_attempts_every_batch (table_name : string)
    (records : list Row) (batch_size : nat) (w : World) :
  batch_size <> 0%nat ->
  exists w' evs,
    load_records table_name records batch_size w = Some (Ok tt, w')
    /\ trace w' = (trace w ++ evs)%list
    /\ forall i, i ∈ range_step (length records) batch_size ->
         exists ok,
           EvUpsert table_name
             (standardized_batch_of (slice records i batch_size)) ok ∈ evs.
Proof.
  intros Hbs. unfold load_records. rewrite decide_False by done.
  destruct (load_batches_attempt_all table_name records batch_size
              ((length records + batch_size - 1) / batch_size)%nat
              (range_step (length records) batch_size) w)
    as (w' & evs & Hrun & Htr & _ & Hall).
  exists w', evs. by repeat split.
Qed.

(** ** The statements on concrete inputs *)

Lemma padded_batch_rectangular_witness :
  [row_ab; row_ac; row_a] !! 1%nat = Some row_ac
  /\ length (standardized_batch_of [row_ab; row_ac; row_a])
     = length [row_ab; row_ac; row_a]
  /\ exists padded : Row,
      standardized_batch_of [row_ab; row_ac; row_a] !! 1%nat = Some padded
      /\ (forall key, key ∈ dom padded
                      <-> exists r, r ∈ [row_ab; row_ac; row_a] /\ key ∈ dom r)
      /\ (forall key v, row_ac !! key = Some v -> padded !! key = Some v)
      /\ (forall key, key ∈ dom padded -> row_ac !! key = None ->
                      padded !! key = Some (Scalar PNone)).
Proof.
  split; [reflexivity|].
  apply (padded_batch_rectangular [row_ab; row_ac; row_a] 1 row_ac).
  reflexivity.
Defined.

Lemma flatten_keeps_raw_properties_witness :
  (forall p, p ∈ ["email"] ->
             props_get (default ∅ (o_properties obj_email)) p <> PNone ->
             col_name_flatten p <> "raw_properties")
  /\ (forall record, build_record obj_email ["email"] = Ok record ->
                     flattened obj_email ["email"] record)
  /\ exists record, build_record obj_email ["email"] = Ok record.
Proof.
  assert (Hfree : forall p, p ∈ ["email"] ->
            props_get (default ∅ (o_properties obj_email)) p <> PNone ->
            col_name_flatten p <> "raw_properties").
  { intros p Hp _. apply list_elem_of_singleton in Hp. subst p.
    vm_compute. discriminate. }
  split; [exact Hfree|]. split.
  - apply (proj1 (flatten_keeps_raw_properties obj_email ["email"] Hfree)).
  - apply (proj2 (flatten_keeps_raw_properties obj_email ["email"] Hfree)
             (PStr "1")).
    reflexivity.
Defined.

Lemma bulk_failure_falls_back_witness :
  faults world_bulk_fails = true :: [false; true]
  /\ exists w' evs success_count,
      load_batch "hubspot_contacts" [row_ab; row_ac; row_a] 100 1 0
        world_bulk_fails = Some (Ok tt, w')
      /\ trace w'
         = (trace world_bulk_fails
              ++ [EvUpsert "hubspot_contacts"
                    (standardized_batch_of
                       (slice [row_ab; row_ac; row_a] 0 100)) false;
                  EvOut (MsgBatchErr (0 / 100 + 1) 1)]
              ++ evs
              ++ [EvOut (MsgFallbackCount success_count
                           (length (standardized_batch_of
                                      (slice [row_ab; row_ac; row_a] 0 100))))])%list
      /\ (upserts evs).*1
         = (fun r => [r])
             <$> standardized_batch_of (slice [row_ab; row_ac; row_a] 0 100)
      /\ success_count = count_ok (upserts evs)
      /\ (success_count
          <= length (standardized_batch_of
                       (slice [row_ab; row_ac; row_a] 0 100)))%nat
      /\ forall rest,
          for_each (0%nat :: rest)
            (load_batch "hubspot_contacts" [row_ab; row_ac; row_a] 100 1)
            world_bulk_fails
          = for_each rest
              (load_batch "hubspot_contacts" [row_ab; row_ac; row_a] 100 1) w'.
Proof.
  split; [reflexivity|].
  apply (bulk_failure_falls_back "hubspot_contacts" [row_ab; row_ac; row_a]
           100 1 0 world_bulk_fails [false; true]).
  reflexivity.
Defined.

Lemma missing_table_halts_sync_witness :
  (("hubspot_" ++ "contacts") ∉ tables world_unprovisioned)
  /\ table_columns ["email"]
     = [ "id SERIAL PRIMARY KEY";
         "hubspot_id TEXT NOT NULL UNIQUE";
         "created_at TIMESTAMPTZ";
         "updated_at TIMESTAMPTZ";
         "archived BOOLEAN DEFAULT FALSE";
         "raw_properties JSONB";
         String "034"%char ("email" ++ String "034"%char " TEXT") ]
  /\ exists w' ok evs,
      ok = negb (hd false (drop 3 (faults world_unprovisioned)))
      /\ export_object_type "contacts" (Some ["email"]) 100 world_unprovisioned
         = Some ((if ok : bool then Ok tt else Raise OSError), w')
      /\ trace w' = (trace world_unprovisioned ++ evs)%list
      /\ EvWriteFile ("create_" ++ ("hubspot_" ++ "contacts") ++ ".sql")
           (create_sql_of ("hubspot_" ++ "contacts") ["email"]) ok ∈ evs
      /\ forallb no_fetch_or_load evs = true
      /\ hubspot w' = hubspot world_unprovisioned
      /\ (ok = true ->
          files w' !! ("create_" ++ ("hubspot_" ++ "contacts") ++ ".sql")
          = Some (create_sql_of ("hubspot_" ++ "contacts") ["email"])).
Proof.
  assert (Hmiss : ("hubspot_" ++ "contacts") ∉ tables world_unprovisioned).
  { simpl. apply not_elem_of_empty. }
  split; [exact Hmiss|].
  pose proof (missing_table_halts_sync "contacts" ["email"] 100
                world_unprovisioned Hmiss) as H.
  cbv zeta in H. destruct H as (Hcols & _ & _ & _ & Hrun).
  split; [exact Hcols | exact Hrun].
Defined.

Lemma first_sync_default_lookback_witness :
  sync_state world_unprovisioned !! "contacts" = None
  /\ exists w', get_last_sync_time "contacts" world_unprovisioned
                = Some (Ok (clock world_unprovisioned - one_day,
                            Some EmptyString), w')
                /\ clock world_unprovisioned
                   - (clock world_unprovisioned - one_day)
                   = 24 * 3600 * 1000000
                /\ clock w' = clock world_unprovisioned
                /\ sync_state w' = sync_state world_unprovisioned.
Proof.
  split; [reflexivity|].
  apply (first_sync_default_lookback "contacts" world_unprovisioned).
  reflexivity.
Defined.

Lemma read_error_rewinds_watermark_witness :
  faults world_store_down = true :: []
  /\ exists w', get_last_sync_time "contacts" world_store_down
                = Some (Ok (clock world_store_down - one_day,
                            Some EmptyString), w')
                /\ trace w'
                   = (trace world_store_down
                        ++ [EvSelectState "contacts" false;
                            EvOut MsgWarnLastSync])%list
                /\ sync_state w' = sync_state world_store_down.
Proof.
  split; [reflexivity|].
  apply (read_error_rewinds_watermark "contacts" world_store_down []).
  reflexivity.
Defined.

Lemma watermark_advanced_on_return_witness :
  export_object_type "contacts" (Some ["email"]) 100
    (processing "contacts" world_unprovisioned)
  = Some (Ok tt, world_unprovisioned_exported)
  /\ exists w2 ok,
      ok = negb (hd false (faults world_unprovisioned_exported))
      /\ main_iteration "contacts" ["email"] world_unprovisioned
         = Some (Ok tt, w2)
      /\ trace w2
         = (trace world_unprovisioned_exported
              ++ [EvOut (MsgProcessed "contacts");
                  EvUpsertState "contacts"
                    (watermark_at (clock world_unprovisioned_exported)) ok]
              ++ (if ok then [] else [EvOut MsgErrUpdateState]))%list
      /\ (ok = true ->
          sync_state w2 !! "contacts"
          = Some (watermark_at (clock world_unprovisioned_exported))).
Proof.
  assert (Hrun : export_object_type "contacts" (Some ["email"]) 100
                   (processing "contacts" world_unprovisioned)
                 = Some (Ok tt, world_unprovisioned_exported)).
  { vm_compute. reflexivity. }
  split; [exact Hrun|].
  apply (watermark_advanced_on_return "contacts" ["email"]
           world_unprovisioned world_unprovisioned_exported Hrun).
Defined.

(** ** The examples of the specification *)

(** Properties [email] and [custom_field], declared list [email]: only
    [email] is flattened, and the blob keeps both. *)
Example flatten_email_only :
  exists record,
    build_record obj_email ["email"] = Ok record
    /\ record !! "email" = Some (Scalar (PStr "a@b.com"))
    /\ record !! "custom_field" = None
    /\ record !! "raw_properties"
       = Some (Dict (<["email" := PStr "a@b.com"]>
                       (<["custom_field" := PStr "x"]> ∅)))
    /\ dom record
       = list_to_set ("email" :: record_keys).
Proof.
  eexists. split; [reflexivity|].
  repeat split; vm_compute; reflexivity.
Qed.

(** Key sets a-b, a-c and a: every padded row has the keys a, b and c,
    with null where the row had no value. *)
Example padded_abc :
  dom <$> standardized_batch_of [row_ab; row_ac; row_a]
  = [list_to_set ["a"; "b"; "c"]; list_to_set ["a"; "b"; "c"];
     list_to_set ["a"; "b"; "c"]]
  /\ (fun r : Row => r !! "b") <$> standardized_batch_of [row_ab; row_ac; row_a]
     = [Some (Scalar (PInt 2)); Some (Scalar PNone); Some (Scalar PNone)].
Proof. split; vm_compute; reflexivity. Qed.

(** Five rows whose bulk upsert fails, and whose third row fails again on
    its own: the five are attempted and four succeed. *)
Example fallback_five_rows :
  let rows := [row_a; row_a; row_ab; row_a; row_a] in
  let w := set_faults [true; false; false; true] world_bulk_fails in
  (fun r => (upserts (trace r.2), outs (trace r.2)))
    <$> load_batch "hubspot_contacts" rows 100 1 0 w
  = Some ((standardized_batch_of rows, false)
            :: zip ((fun r => [r]) <$> standardized_batch_of rows)
                 [true; true; false; true; true],
          [MsgBatchErr 1 1; MsgRowErr 3 (Scalar (PStr "unknown"));
           MsgFallbackCount 4 5]).
Proof. vm_compute. reflexivity. Qed.

(** The script of [create_supabase_table] for two properties. *)
Example create_sql_lead_status :
  table_columns ["email"; "Lead Status!"]
  = app basic_columns [text_column "email"; text_column "lead_status_"].
Proof. reflexivity. Qed.

(** * Further properties of the exporter *)

(** ** What a computation emits, and what never raises *)

Section Combinators.

Context {A B : Type}.
Variable P : Event -> Prop.

Lemma emits_ret (a : A) : emits P (ret a).
Proof.
  intros w r w' H. unfold ret in H. simplify_eq. exists [].
  by rewrite app_nil_r.
Qed.

Lemma emits_mret (a : A) : emits P (mret a : M A).
Proof. apply emits_ret. Qed.

Lemma emits_raise (e : Exn) : emits P (raise e : M A).
Proof.
  intros w r w' H. unfold raise in H. simplify_eq. exists [].
  by rewrite app_nil_r.
Qed.

Lemma emits_diverge : emits P (diverge : M A).
Proof. intros w r w' H. discriminate. Qed.

Lemma emits_gets (f : World -> A) : emits P (gets f).
Proof.
  intros w r w' H. unfold gets in H. simplify_eq. exists [].
  by rewrite app_nil_r.
Qed.

Lemma emits_bind (m : M A) (k : A -> M B) :
  emits P m -> (forall a, emits P (k a)) -> emits P (m ≫= k).
Proof.
  intros Hm Hk w r w' H. unfold mbind, M_bind, bind in H.
  destruct (m w) as [[[a|e] w1]|] eqn:E; try discriminate.
  - destruct (Hm _ _ _ E) as (evs1 & Ht1 & HP1).
    destruct (Hk a _ _ _ H) as (evs2 & Ht2 & HP2).
    exists (evs1 ++ evs2)%list. split.
    + by rewrite Ht2, Ht1, <- app_assoc.
    + by apply Forall_app.
  - simplify_eq. by eapply Hm.
Qed.

Lemma emits_try (m : M A) (h : Exn -> M A) :
  emits P m -> (forall e, emits P (h e)) -> emits P (try_except m h).
Proof.
  intros Hm Hh w r w' H. unfold try_except in H.
  destruct (m w) as [[[a|e] w1]|] eqn:E; try discriminate.
  - simplify_eq. by eapply Hm.
  - destruct (Hm _ _ _ E) as (evs1 & Ht1 & HP1).
    destruct (Hh e _ _ _ H) as (evs2 & Ht2 & HP2).
    exists (evs1 ++ evs2)%list. split.
    + by rewrite Ht2, Ht1, <- app_assoc.
    + by apply Forall_app.
Qed.

Lemma nr_ret (a : A) : never_raises (ret a).
Proof. intros w r w' H. unfold ret in H. simplify_eq. by eexists. Qed.

Lemma nr_mret (a : A) : never_raises (mret a : M A).
Proof. apply nr_ret. Qed.

Lemma nr_diverge : never_raises (diverge : M A).
Proof. intros w r w' H. discriminate. Qed.

Lemma nr_gets (f : World -> A) : never_raises (gets f).
Proof. intros w r w' H. unfold gets in H. simplify_eq. by eexists. Qed.

Lemma nr_bind (m : M A) (k : A -> M B) :
  never_raises m -> (forall a, never_raises (k a)) -> never_raises (m ≫= k).
Proof.
  intros Hm Hk w r w' H. unfold mbind, M_bind, bind in H.
  destruct (m w) as [[[a|e] w1]|] eqn:E; try discriminate.
  - by eapply Hk.
  - destruct (Hm _ _ _ E) as [a Ha]. discriminate.
Qed.

(** A [try] whose handler never raises never raises, whatever its body. *)
Lemma nr_try (m : M A) (h : Exn -> M A) :
  (forall e, never_raises (h e)) -> never_raises (try_except m h).
Proof.
  intros Hh w r w' H. unfold try_except in H.
  destruct (m w) as [[[a|e] w1]|] eqn:E; try discriminate.
  - simplify_eq. by eexists.
  - by eapply Hh.
Qed.

End Combinators.

Lemma emits_emit (P : Event -> Prop) (e : Event) : P e -> emits P (emit e).
Proof.
  intros HP w r w' H. unfold emit in H. simplify_eq. exists [e].
  split; [reflexivity|]. by apply Forall_singleton.
Qed.

Lemma emits_out (P : Event -> Prop) (m : Msg) : P (EvOut m) -> emits P (out m).
Proof. apply emits_emit. Qed.

Lemma emits_pop_fault (P : Event -> Prop) : emits P pop_fault.
Proof.
  intros w r w' H. unfold pop_fault in H. exists [].
  destruct (faults w); simplify_eq; by rewrite app_nil_r.
Qed.

Lemma emits_now (P : Event -> Prop) : emits P now.
Proof. apply emits_gets. Qed.

Lemma emits_modify (P : Event -> Prop) (f : World -> World) :
  (forall w, trace (f w) = trace w) -> emits P (modify f).
Proof.
  intros Hf w r w' H. unfold modify in H. simplify_eq. exists [].
  by rewrite app_nil_r, Hf.
Qed.

Lemma emits_requests_get (P : Event -> Prop) (object_type : string)
    (limit : Z) (properties after : option string) (since : option Z) :
  (forall reply,
      P (EvHttpGet object_type limit properties after since reply)) ->
  emits P (requests_get object_type limit properties after since).
Proof.
  intros HP w r w' H. unfold requests_get in H.
  destruct (hubspot w) as [|reply rs]; [discriminate|].
  exists [EvHttpGet object_type limit properties after since reply].
  split; [|by apply Forall_singleton].
  destruct reply; by simplify_eq.
Qed.

Lemma emits_for_each (P : Event -> Prop) {A} (l : list A) (body : A -> M unit) :
  (forall x, emits P (body x)) -> emits P (for_each l body).
Proof.
  intros Hb. induction l; cbn [for_each].
  - apply emits_ret.
  - apply emits_bind; [apply Hb|]. intros _. apply IHl.
Qed.

Lemma emits_for_fold (P : Event -> Prop) {A S} (l : list A)
    (body : S -> A -> M S) :
  (forall s x, emits P (body s x)) -> forall s, emits P (for_fold l body s).
Proof.
  intros Hb. induction l; intros s; cbn [for_fold].
  - apply emits_ret.
  - apply emits_bind; [apply Hb|]. intros s'. apply IHl.
Qed.

Lemma nr_emit (e : Event) : never_raises (emit e).
Proof. intros w r w' H. unfold emit in H. simplify_eq. by eexists. Qed.

Lemma nr_out (m : Msg) : never_raises (out m).
Proof. apply nr_emit. Qed.

Lemma nr_now : never_raises now.
Proof. apply nr_gets. Qed.

Lemma nr_pop_fault : never_raises pop_fault.
Proof.
  intros w r w' H. unfold pop_fault in H.
  destruct (faults w); simplify_eq; by eexists.
Qed.

Lemma nr_modify (f : World -> World) : never_raises (modify f).
Proof. intros w r w' H. unfold modify in H. simplify_eq. by eexists. Qed.

Lemma nr_for_each {A} (l : list A) (body : A -> M unit) :
  (forall x, never_raises (body x)) -> never_raises (for_each l body).
Proof.
  intros Hb. induction l; cbn [for_each].
  - apply nr_ret.
  - apply nr_bind; [apply Hb|]. intros _. apply IHl.
Qed.

Lemma nr_for_fold {A S} (l : list A) (body : S -> A -> M S) :
  (forall s x, never_raises (body s x)) ->
  forall s, never_raises (for_fold l body s).
Proof.
  intros Hb. induction l; intros s; cbn [for_fold].
  - apply nr_ret.
  - apply nr_bind; [apply Hb|]. intros s'. apply IHl.
Qed.

Create HintDb emits.
Create HintDb nr.

#[local] Hint Resolve emits_ret emits_mret emits_raise emits_diverge emits_gets
  emits_pop_fault emits_now : emits.

#[local] Hint Resolve nr_ret nr_mret nr_diverge nr_gets nr_emit nr_out nr_now
  nr_pop_fault nr_modify : nr.

Ltac emits_step :=
  match goal with
  | |- emits _ (_ ≫= _) => apply emits_bind; [|intros]
  | |- emits _ (try_except _ _) => apply emits_try; [|intros]
  | |- emits _ (modify _) => apply emits_modify; intros; reflexivity
  | |- emits _ (emit _) => apply emits_emit; simpl; try done
  | |- emits _ (out _) => apply emits_out; simpl; try done
  | |- emits _ (requests_get _ _ _ _ _) =>
      apply emits_requests_get; intros; simpl; try done
  | |- emits _ (if ?b then _ else _) => destruct b
  | |- emits _ (match ?x with _ => _ end) => destruct x
  | |- emits _ _ => solve [eauto with emits]
  end.

Ltac emits := repeat emits_step.

Ltac nr_step :=
  match goal with
  | |- never_raises (try_except _ _) => apply nr_try; intros
  | |- never_raises (_ ≫= _) => apply nr_bind; [|intros]
  | |- never_raises (if ?b then _ else _) => destruct b
  | |- never_raises (match ?x with _ => _ end) => destruct x
  | |- never_raises _ => solve [eauto with nr]
  end.

Ltac nr := repeat nr_step.

Lemma emits_weaken (P Q : Event -> Prop) {A} (m : M A) :
  (forall e, P e -> Q e) -> emits P m -> emits Q m.
Proof.
  intros HPQ Hm w r w' H. destruct (Hm _ _ _ H) as (evs & Ht & HP).
  exists evs. split; [exact Ht|]. by eapply Forall_impl.
Qed.

(** ** The fetch loop *)

Section Fetch.

Variable object_type : string.
Variable properties : option (list string).
Variable limit : nat.
Variable last_sync_time : option Z.

Lemma nr_fetch_iteration (after : option string) (all_objects : list SourceObj) :
  never_raises
    (fetch_iteration object_type properties limit last_sync_time after
       all_objects).
Proof. unfold fetch_iteration. nr. Qed.

Lemma nr_fetch_loop (fuel : nat) :
  forall (after : option string) (all_objects : list SourceObj),
    never_raises
      (fetch_loop fuel object_type properties limit last_sync_time after
         all_objects).
Proof.
  induction fuel; intros after all_objects; cbn [fetch_loop]; [nr|].
  apply nr_bind; [apply nr_fetch_iteration|].
  intros [objs [|after']]; [nr|apply IHfuel].
Qed.

Lemma emits_sleep (P : Event -> Prop) (seconds : Z) :
  P (EvSleep seconds) -> emits P (sleep seconds).
Proof. intros HP. unfold sleep. emits. Qed.

Lemma emits_fetch_iteration (after : option string)
    (all_objects : list SourceObj) :
  emits (page_request_of object_type properties limit last_sync_time)
    (fetch_iteration object_type properties limit last_sync_time after
       all_objects).
Proof.
  unfold fetch_iteration. emits; try (apply emits_sleep; done).
  all: by destruct properties as [[|]|].
Qed.

Lemma emits_fetch_loop (fuel : nat) :
  forall (after : option string) (all_objects : list SourceObj),
    emits (page_request_of object_type properties limit last_sync_time)
      (fetch_loop fuel object_type properties limit last_sync_time after
         all_objects).
Proof.
  induction fuel; intros after all_objects; cbn [fetch_loop]; [emits|].
  apply emits_bind; [apply emits_fetch_iteration|].
  intros [objs [|after']]; [emits|apply IHfuel].
Qed.

End Fetch.

Lemma nr_get_hubspot_objects (object_type : string)
    (properties : option (list string)) (limit : nat)
    (last_sync_time : option Z) :
  never_raises
    (get_hubspot_objects object_type properties limit last_sync_time).
Proof.
  unfold get_hubspot_objects.
  apply nr_bind; [nr|]. intros _. apply nr_bind; [nr|]. intros replies.
  apply nr_fetch_loop.
Qed.

Lemma emits_get_hubspot_objects (object_type : string)
    (properties : option (list string)) (limit : nat)
    (last_sync_time : option Z) :
  emits (page_request_of object_type properties limit last_sync_time)
    (get_hubspot_objects object_type properties limit last_sync_time).
Proof.
  unfold get_hubspot_objects.
  apply emits_bind; [emits|]. intros _. apply emits_bind; [emits|].
  intros replies. apply emits_fetch_loop.
Qed.

(** X1. [get_hubspot_objects] never raises: a transport error, a body that
    is not JSON, an unreadable or negative [Retry-After] all end the loop,
    and the records gathered so far are returned. *)
Theorem fetch_never_raises (object_type : string)
    (properties : option (list string)) (limit : nat)
    (last_sync_time : option Z) :
  never_raises
    (get_hubspot_objects object_type properties limit last_sync_time).
Proof. apply nr_get_hubspot_objects. Qed.

(** X2. Every page request of one fetch carries the same parameters: the
    object type, a limit of at most 100 ([min(limit, 100)]), the declared
    properties joined by commas, and the watermark [last_sync_time] as the
    datetime from which the lower bound of the modification-date filter is
    computed. *)
Theorem fetch_requests_carry_watermark (object_type : string)
    (properties : option (list string)) (limit : nat)
    (last_sync_time : option Z) :
  emits (page_request_of object_type properties limit last_sync_time)
    (get_hubspot_objects object_type properties limit last_sync_time).
Proof. apply emits_get_hubspot_objects. Qed.

(** ** The cycle of one object type *)

Section Cycle.

Variable object_type : string.

Lemma cycle_fetch_iteration (properties : option (list string))
    (limit : nat) (last_sync_time : option Z) (after : option string)
    (all_objects : list SourceObj) :
  emits (cycle_event_of object_type)
    (fetch_iteration object_type properties limit last_sync_time after
       all_objects).
Proof. unfold fetch_iteration. emits; apply emits_sleep; done. Qed.

Lemma cycle_fetch_loop (properties : option (list string))
    (limit : nat) (last_sync_time : option Z) (fuel : nat) :
  forall (after : option string) (all_objects : list SourceObj),
    emits (cycle_event_of object_type)
      (fetch_loop fuel object_type properties limit last_sync_time after
         all_objects).
Proof.
  induction fuel; intros after all_objects; cbn [fetch_loop]; [emits|].
  apply emits_bind; [apply cycle_fetch_iteration|].
  intros [objs [|after']]; [emits|apply IHfuel].
Qed.

Lemma cycle_get_hubspot_objects (properties : option (list string))
    (limit : nat) (last_sync_time : option Z) :
  emits (cycle_event_of object_type)
    (get_hubspot_objects object_type properties limit last_sync_time).
Proof.
  unfold get_hubspot_objects.
  apply emits_bind; [emits|]. intros _. apply emits_bind; [emits|].
  intros replies. apply cycle_fetch_loop.
Qed.

Lemma cycle_create_sync_state_table :
  emits (cycle_event_of object_type) create_sync_state_table.
Proof. unfold create_sync_state_table, supabase_rpc. emits. Qed.

Lemma cycle_get_last_sync_time :
  emits (cycle_event_of object_type) (get_last_sync_time object_type).
Proof. unfold get_last_sync_time, sync_state_select. emits. Qed.

Lemma cycle_get_all_properties :
  emits (cycle_event_of object_type) (get_all_properties object_type).
Proof. unfold get_all_properties, properties_get. emits. Qed.

Lemma cycle_check_supabase_table_exists :
  emits (cycle_event_of object_type)
    (check_supabase_table_exists ("hubspot_" ++ object_type)).
Proof. unfold check_supabase_table_exists, table_probe. emits. Qed.

Lemma cycle_create_supabase_table (properties : list string) :
  emits (cycle_event_of object_type)
    (create_supabase_table ("hubspot_" ++ object_type) properties).
Proof. unfold create_supabase_table, file_write. emits. Qed.

Lemma cycle_build_records (objects : list SourceObj)
    (properties : list string) :
  emits (cycle_event_of object_type)
    (build_records object_type objects properties).
Proof. unfold build_records. apply emits_for_fold. intros. emits. Qed.

Lemma cycle_load_records (records : list Row) (batch_size : nat) :
  emits (cycle_event_of object_type)
    (load_records ("hubspot_" ++ object_type) records batch_size).
Proof.
  unfold load_records. emits. apply emits_for_each. intros i.
  unfold load_batch, table_upsert. emits.
  unfold upsert_one_by_one. apply emits_for_fold. intros s [idx record].
  unfold upsert_single, table_upsert. emits.
Qed.

Lemma cycle_export_properties (t : Z) (properties : list string)
    (batch_size : nat) :
  emits (cycle_event_of object_type)
    (export_properties object_type ("hubspot_" ++ object_type) t properties
       batch_size).
Proof.
  unfold export_properties.
  apply emits_bind; [apply cycle_check_supabase_table_exists|]. intros found.
  apply emits_bind.
  { destruct found; simpl; [emits|apply cycle_create_supabase_table]. }
  intros proceed. destruct proceed; simpl; [|emits].
  apply emits_bind; [apply cycle_get_hubspot_objects|]. intros objects.
  destruct objects; [emits|].
  apply emits_bind; [apply cycle_build_records|]. intros records.
  destruct records; [emits|]. apply cycle_load_records.
Qed.

Lemma cycle_export_object_type (specific_properties : option (list string))
    (batch_size : nat) :
  emits (cycle_event_of object_type)
    (export_object_type object_type specific_properties batch_size).
Proof.
  unfold export_object_type.
  apply emits_bind; [apply cycle_create_sync_state_table|]. intros _.
  apply emits_bind; [apply cycle_get_last_sync_time|]. intros [t c].
  apply emits_bind; [emits|]. intros _.
  destruct specific_properties as [properties|].
  - apply cycle_export_properties.
  - apply emits_bind; [apply cycle_get_all_properties|]. intros properties.
    destruct properties; [emits|].
    apply emits_bind; [emits|]. intros _. apply cycle_export_properties.
Qed.

End Cycle.

(** X3. A cycle stays within its object type: whether it returns or
    raises, [export_object_type] upserts rows only into
    [hubspot_<object_type>], probes only that table, writes only
    [create_hubspot_<object_type>.sql], asks HubSpot only for that object
    type, and never writes the watermark store. *)
Theorem cycle_stays_in_object_type (object_type : string)
    (specific_properties : option (list string)) (batch_size : nat) :
  emits (cycle_event_of object_type)
    (export_object_type object_type specific_properties batch_size)
  /\ keeps_watermarks
       (export_object_type object_type specific_properties batch_size).
Proof.
  split; [apply cycle_export_object_type|apply keeps_export_object_type].
Qed.

(** ** The run *)

Lemma emit_then {A} (e : Event) (k : unit -> M A) (w : World) :
  (emit e ≫= k) w = k tt (set_trace (trace w ++ [e]) w).
Proof. reflexivity. Qed.

Lemma cycle_event_not_announcement (object_type : string) (e : Event) :
  cycle_event_of object_type e -> not_announcement e.
Proof. destruct e as [| | | | | | | | |m]; try done. by destruct m. Qed.

Lemma nr_update_sync_state (object_type : string) (sync_time : Z)
    (cursor : string) :
  never_raises (update_sync_state object_type sync_time cursor).
Proof. unfold update_sync_state. nr. Qed.

Lemma nr_main_iteration (object_type : string) (properties : list string) :
  never_raises (main_iteration object_type properties).
Proof. unfold main_iteration. nr. Qed.

Lemma main_iteration_body_quiet (object_type : string)
    (properties : list string) :
  emits not_announcement
    (try_except
       (export_object_type object_type (Some properties) 100;;
        out (MsgProcessed object_type);;
        t ← now;
        update_sync_state object_type t EmptyString)
       (fun e => out (MsgErrProcessing object_type e))).
Proof.
  apply emits_try; [|intros; emits].
  apply emits_bind.
  { eapply emits_weaken; [apply cycle_event_not_announcement|].
    apply cycle_export_object_type. }
  intros _. unfold update_sync_state, sync_state_upsert. emits.
Qed.

Lemma main_iteration_announces (object_type : string)
    (properties : list string) (w : World) (r : Res unit) (w' : World) :
  main_iteration object_type properties w = Some (r, w') ->
  r = Ok tt
  /\ exists evs, trace w' = (trace w ++ EvOut (MsgProcessing object_type) :: evs)%list
                 /\ Forall not_announcement evs.
Proof.
  intros H. split.
  - destruct (nr_main_iteration _ _ _ _ _ H) as [[] ->]. reflexivity.
  - unfold main_iteration, out in H. rewrite emit_then in H.
    destruct (main_iteration_body_quiet object_type properties _ _ _ H)
      as (evs & Ht & HP).
    exists evs. split; [|exact HP]. rewrite Ht. simpl.
    by rewrite <- app_assoc.
Qed.

Lemma announced_quiet (evs : list Event) :
  Forall not_announcement evs -> announced evs = [].
Proof.
  induction 1 as [|e evs He _ IH]; [reflexivity|].
  unfold announced in *. destruct e as [| | | | | | | | |m]; simpl; try done.
  by destruct m.
Qed.

Lemma announced_app (evs1 evs2 : list Event) :
  announced (evs1 ++ evs2) = (announced evs1 ++ announced evs2)%list.
Proof. apply omap_app. Qed.

Lemma announced_cons (object_type : string) (evs : list Event) :
  announced (EvOut (MsgProcessing object_type) :: evs)
  = object_type :: announced evs.
Proof. reflexivity. Qed.

Lemma main_loop_announces (objects : list (string * list string)) :
  forall (w : World) (r : Res unit) (w' : World),
    for_each objects
      (fun '(object_type, properties) => main_iteration object_type properties)
      w = Some (r, w') ->
    r = Ok tt
    /\ exists evs, trace w' = (trace w ++ evs)%list
                   /\ announced evs = objects.*1.
Proof.
  induction objects as [|[ot props] objects IH]; intros w r w' H;
    cbn [for_each] in H.
  - unfold ret in H. simplify_eq. split; [reflexivity|]. exists [].
    by rewrite app_nil_r.
  - unfold mbind, M_bind, bind in H.
    destruct (main_iteration ot props w) as [[r1 w1]|] eqn:E; [|discriminate].
    destruct (main_iteration_announces _ _ _ _ _ E) as (-> & evs1 & Ht1 & HP1).
    destruct (IH _ _ _ H) as (-> & evs2 & Ht2 & Ha2).
    split; [reflexivity|].
    exists (EvOut (MsgProcessing ot) :: evs1 ++ evs2)%list. split.
    + rewrite Ht2, Ht1, <- app_assoc. reflexivity.
    + rewrite announced_cons, announced_app, (announced_quiet _ HP1), Ha2.
      reflexivity.
Qed.

(** X4. A run of [main] that ends never raises, and it goes through
    contacts, companies and deals in that order, once each, whatever
    happens in the cycle of each: an exception in one cycle is logged and
    the loop goes on. *)
Theorem main_visits_every_object_type (w : World) (r : Res unit) (w' : World) :
  main w = Some (r, w') ->
  r = Ok tt
  /\ exists evs, trace w' = (trace w ++ evs)%list
                 /\ announced evs = ["contacts"; "companies"; "deals"].
Proof.
  intros H. unfold main, out in H. rewrite emit_then in H.
  unfold mbind, M_bind, bind in H.
  match type of H with context [for_each ?l ?f ?w0] =>
    destruct (for_each l f w0) as [[r1 w1]|] eqn:E; [|discriminate];
    destruct (main_loop_announces l w0 r1 w1 E) as (-> & evs & Ht & Ha)
  end.
  unfold emit in H. simplify_eq. split; [reflexivity|].
  exists (EvOut MsgSyncStart :: evs ++ [EvOut MsgSyncCompleted])%list.
  split.
  - simpl. rewrite Ht. simpl. rewrite <- !app_assoc. reflexivity.
  - change (announced (EvOut MsgSyncStart :: ?l)) with (announced l).
    rewrite announced_app, Ha. reflexivity.
Qed.

Lemma main_visits_every_object_type_witness :
  main world_fetch_aborts = Some (Ok tt, world_after_main world_fetch_aborts)
  /\ Ok tt = Ok tt
  /\ exists evs,
      trace (world_after_main world_fetch_aborts)
      = (trace world_fetch_aborts ++ evs)%list
      /\ announced evs = ["contacts"; "companies"; "deals"].
Proof.
  assert (Hrun : main world_fetch_aborts
                 = Some (Ok tt, world_after_main world_fetch_aborts)).
  { vm_compute. reflexivity. }
  split; [exact Hrun|].
  apply (main_visits_every_object_type world_fetch_aborts (Ok tt)
           (world_after_main world_fetch_aborts) Hrun).
Defined.

(** ** Pagination *)

Section Pagination.

Variable object_type : string.
Variable properties : option (list string).
Variable limit : nat.
Variable last_sync_time : option Z.

Lemma fetch_loop_last_page (fuel : nat) (after : option string)
    (all_objects : list SourceObj) (w : World) (final : Page)
    (retry_after : RetryAfter) (rest : list HttpReply) :
  is_last_page final = true ->
  hubspot w = Response 200 retry_after (Some final) :: rest ->
  exists w' evs,
    fetch_loop (S fuel) object_type properties limit last_sync_time after
      all_objects w
    = Some (Ok (all_objects ++ results final)%list, w')
    /\ hubspot w' = rest
    /\ trace w' = (trace w ++ evs)%list
    /\ http_afters evs = [after]
    /\ sleeps evs = []
    /\ clock w' = clock w /\ faults w' = faults w
    /\ sync_state w' = sync_state w /\ tables w' = tables w.
Proof.
  intros Hlast Hh. cbn [fetch_loop]. unfold fetch_iteration, requests_get.
  run_goal. rewrite Hh. simpl. unfold is_last_page in Hlast.
  destruct (paging_next final) as [[a|]|]; simpl.
  - apply bool_decide_eq_true_1 in Hlast. subst a. simpl.
    do 2 eexists. split; [reflexivity|]. simpl. rewrite <- !app_assoc.
    repeat split; reflexivity.
  - do 2 eexists. split; [reflexivity|]. simpl. rewrite <- !app_assoc.
    repeat split; reflexivity.
  - do 2 eexists. split; [reflexivity|]. simpl. rewrite <- !app_assoc.
    repeat split; reflexivity.
Qed.

Lemma fetch_loop_pages (pages : list (list SourceObj * string)) :
  forall (fuel : nat) (after : option string) (all_objects : list SourceObj)
         (w : World) (final : Page) (retry_after : RetryAfter)
         (rest : list HttpReply),
    (length pages < fuel)%nat ->
    Forall (fun p => p.2 <> EmptyString) pages ->
    is_last_page final = true ->
    hubspot w
    = ((page_reply <$> pages)
         ++ Response 200 retry_after (Some final) :: rest)%list ->
    exists w' evs,
      fetch_loop fuel object_type properties limit last_sync_time after
        all_objects w
      = Some (Ok (all_objects ++ concat pages.*1 ++ results final)%list, w')
      /\ hubspot w' = rest
      /\ trace w' = (trace w ++ evs)%list
      /\ http_afters evs = after :: (Some <$> pages.*2)
      /\ sleeps evs = []
      /\ clock w' = clock w /\ faults w' = faults w
      /\ sync_state w' = sync_state w /\ tables w' = tables w.
Proof.
  induction pages as [|[objs token] pages IH];
    intros fuel after all_objects w final retry_after rest Hfuel Hne Hlast Hh.
  - destruct fuel as [|fuel]; [simpl in Hfuel; lia|].
    simpl in Hh. by apply (fetch_loop_last_page fuel after all_objects w final
                             retry_after rest).
  - destruct fuel as [|fuel]; [simpl in Hfuel; lia|].
    apply Forall_cons in Hne as [Htok Hne]. simpl in Htok.
    cbn [fmap list_fmap app] in Hh.
    cbn [fetch_loop]. unfold fetch_iteration, requests_get.
    run_goal. rewrite Hh. simpl. rewrite decide_False by done. simpl.
    match goal with |- context [fetch_loop fuel _ _ _ _ _ _ ?w1] =>
      destruct (IH fuel (Some token) (all_objects ++ objs)%list w1 final
                  retry_after rest)
        as (w' & evs & Hrun & Hrest & Htr & Haf & Hsl & Hck & Hf & Hst & Htb);
        [simpl in Hfuel; lia|done|done|reflexivity|]
    end.
    do 2 eexists. split.
    { rewrite Hrun. simpl. rewrite <- !app_assoc. reflexivity. }
    split; [exact Hrest|]. split.
    { rewrite Htr. simpl. rewrite <- !app_assoc. reflexivity. }
    unfold http_afters, sleeps in *. rewrite !omap_app. simpl.
    rewrite Haf, Hsl. repeat split; assumption.
Qed.

End Pagination.

(** X5. Pagination: when HubSpot answers with pages that each announce a
    next page by a non-empty token and then with a page that announces
    none, the fetch returns the records of all the pages in order, sends
    one request per page, each carrying the token of the page before, and
    stops there: the replies after the last page are left unread. *)
Theorem fetch_follows_pages (object_type : string)
    (properties : option (list string)) (limit : nat)
    (last_sync_time : option Z) (w : World)
    (pages : list (list SourceObj * string)) (final : Page)
    (retry_after : RetryAfter) (rest : list HttpReply) :
  Forall (fun p => p.2 <> EmptyString) pages ->
  is_last_page final = true ->
  hubspot w
  = ((page_reply <$> pages)
       ++ Response 200 retry_after (Some final) :: rest)%list ->
  exists w' evs,
    get_hubspot_objects object_type properties limit last_sync_time w
    = Some (Ok (concat pages.*1 ++ results final)%list, w')
    /\ hubspot w' = rest
    /\ trace w' = (trace w ++ evs)%list
    /\ http_afters evs = None :: (Some <$> pages.*2)
    /\ sleeps evs = [].
Proof.
  intros Hne Hlast Hh. unfold get_hubspot_objects. unfold out.
  rewrite emit_then. unfold mbind, M_bind, bind, gets. simpl. rewrite Hh.
  match goal with |- context [fetch_loop ?fuel _ _ _ _ _ _ ?w1] =>
    destruct (fetch_loop_pages object_type properties limit last_sync_time
                pages fuel None [] w1 final retry_after rest)
      as (w' & evs & Hrun & Hrest & Htr & Haf & Hsl & _);
      [rewrite length_app, length_fmap; simpl; lia|done|done|exact Hh|]
  end.
  exists w', (EvOut (MsgFetching object_type) :: evs).
  split; [exact Hrun|]. split; [exact Hrest|]. split.
  { rewrite Htr. simpl. rewrite <- app_assoc. reflexivity. }
  change (http_afters (EvOut ?m :: ?l)) with (http_afters l).
  change (sleeps (EvOut ?m :: ?l)) with (sleeps l).
  by rewrite Haf, Hsl.
Qed.

Lemma fetch_follows_pages_witness :
  Forall (fun p : list SourceObj * string => p.2 <> EmptyString)
    [([obj_email], "100")]
  /\ is_last_page second_page = true
  /\ hubspot world_two_pages
     = ((page_reply <$> [([obj_email], "100")])
          ++ Response 200 NoRetryAfter (Some second_page) :: [])%list
  /\ exists w' evs,
      get_hubspot_objects "contacts" (Some ["email"]) 100
        (Some 1700000000000000) world_two_pages
      = Some (Ok (concat [([obj_email], "100")].*1 ++ results second_page)%list,
              w')
      /\ hubspot w' = []
      /\ trace w' = (trace world_two_pages ++ evs)%list
      /\ http_afters evs = None :: (Some <$> [([obj_email], "100")].*2)
      /\ sleeps evs = [].
Proof.
  assert (Hne : Forall (fun p : list SourceObj * string => p.2 <> EmptyString)
                  [([obj_email], "100")]).
  { apply Forall_singleton. simpl. discriminate. }
  split; [exact Hne|]. split; [reflexivity|]. split; [reflexivity|].
  apply (fetch_follows_pages "contacts" (Some ["email"]) 100
           (Some 1700000000000000) world_two_pages [([obj_email], "100")]
           second_page NoRetryAfter [] Hne); reflexivity.
Defined.

(** ** Rate limits and failures *)

(** X6. Rate limit: on a 429 whose [Retry-After] is a non-negative integer
    (10 seconds when the header is absent) the loop sleeps that long and
    asks for the same page again: it goes on with the same [after] token
    and the same records, the clock moved by the wait. *)
Theorem rate_limit_retries_same_page (fuel : nat) (object_type : string)
    (properties : option (list string)) (limit : nat)
    (last_sync_time : option Z) (after : option string)
    (all_objects : list SourceObj) (w : World) (retry_after : RetryAfter)
    (body : option Page) (rest : list HttpReply) (n : Z) :
  hubspot w = Response 429 retry_after body :: rest ->
  retry_seconds retry_after = Some n ->
  0 <= n ->
  exists w1 evs,
    fetch_loop (S fuel) object_type properties limit last_sync_time after
      all_objects w
    = fetch_loop fuel object_type properties limit last_sync_time after
        all_objects w1
    /\ hubspot w1 = rest
    /\ clock w1 = clock w + n * 1000000
    /\ trace w1 = (trace w ++ evs)%list
    /\ sleeps evs = [n]
    /\ http_afters evs = [after]
    /\ sync_state w1 = sync_state w
    /\ faults w1 = faults w.
Proof.
  intros Hh Hn Hpos. cbn [fetch_loop].
  unfold fetch_iteration, requests_get, sleep. run_goal. rewrite Hh. simpl.
  assert (Hlt : (n <? 0) = false) by (apply Z.ltb_ge; lia).
  destruct retry_after as [|m|]; simpl in Hn; simplify_eq; simpl;
    rewrite ?Hlt; simpl; do 2 eexists;
    (split; [reflexivity|]); simpl; rewrite <- !app_assoc;
    repeat split; reflexivity.
Qed.

Lemma rate_limit_retries_same_page_witness :
  hubspot world_rate_limited
  = Response 429 (RetryAfterInt 3) None
      :: [Response 200 NoRetryAfter (Some second_page)]
  /\ retry_seconds (RetryAfterInt 3) = Some 3
  /\ 0 <= 3
  /\ exists w1 evs,
      fetch_loop 2 "contacts" (Some ["email"]) 100 (Some 1700000000000000)
        None [] world_rate_limited
      = fetch_loop 1 "contacts" (Some ["email"]) 100 (Some 1700000000000000)
          None [] w1
      /\ hubspot w1 = [Response 200 NoRetryAfter (Some second_page)]
      /\ clock w1 = clock world_rate_limited + 3 * 1000000
      /\ trace w1 = (trace world_rate_limited ++ evs)%list
      /\ sleeps evs = [3]
      /\ http_afters evs = [None]
      /\ sync_state w1 = sync_state world_rate_limited
      /\ faults w1 = faults world_rate_limited.
Proof.
  split; [reflexivity|]. split; [reflexivity|]. split; [lia|].
  apply (rate_limit_retries_same_page 1 "contacts" (Some ["email"]) 100
           (Some 1700000000000000) None [] world_rate_limited
           (RetryAfterInt 3) None
           [Response 200 NoRetryAfter (Some second_page)] 3);
    [reflexivity|reflexivity|lia].
Defined.

(** X7. Giving up: on a transport error, on a status other than 200 and
    429, on a 200 whose body is not JSON, and on a 429 whose [Retry-After]
    is not an integer or is negative, the loop ends at once. It returns
    the records gathered so far as an ordinary result, sends no further
    request and does not sleep. *)
Theorem fetch_gives_up_with_partial_result (fuel : nat) (object_type : string)
    (properties : option (list string)) (limit : nat)
    (last_sync_time : option Z) (after : option string)
    (all_objects : list SourceObj) (w : World) (reply : HttpReply)
    (rest : list HttpReply) :
  hubspot w = reply :: rest ->
  gives_up reply = true ->
  exists w' evs,
    fetch_loop (S fuel) object_type properties limit last_sync_time after
      all_objects w = Some (Ok all_objects, w')
    /\ hubspot w' = rest
    /\ trace w' = (trace w ++ evs)%list
    /\ http_afters evs = [after]
    /\ sleeps evs = []
    /\ clock w' = clock w
    /\ sync_state w' = sync_state w.
Proof.
  intros Hh Hg. cbn [fetch_loop].
  unfold fetch_iteration, requests_get, sleep. run_goal. rewrite Hh.
  destruct reply as [|status retry_after body]; simpl.
  - do 2 eexists. split; [reflexivity|]. simpl. rewrite <- !app_assoc.
    repeat split; reflexivity.
  - simpl in Hg. destruct (status =? 401) eqn:E401; simpl.
    { do 2 eexists. split; [reflexivity|]. simpl. rewrite <- !app_assoc.
      repeat split; reflexivity. }
    destruct (status =? 200) eqn:E200; simpl.
    { destruct body; [discriminate|]. simpl.
      do 2 eexists. split; [reflexivity|]. simpl. rewrite <- !app_assoc.
      repeat split; reflexivity. }
    destruct (status =? 429) eqn:E429; simpl.
    + destruct retry_after as [|m|]; simpl in *; try discriminate;
        try rewrite Hg; simpl;
        do 2 eexists; (split; [reflexivity|]); simpl; rewrite <- !app_assoc;
        repeat split; reflexivity.
    + do 2 eexists. split; [reflexivity|]. simpl. rewrite <- !app_assoc.
      repeat split; reflexivity.
Qed.

Lemma fetch_gives_up_with_partial_result_witness :
  hubspot (set_hubspot [Response 500 NoRetryAfter None] world_server_error)
  = Response 500 NoRetryAfter None :: []
  /\ gives_up (Response 500 NoRetryAfter None) = true
  /\ exists w' evs,
      fetch_loop 1 "contacts" (Some ["email"]) 100 (Some 1700000000000000)
        (Some "100") [obj_email]
        (set_hubspot [Response 500 NoRetryAfter None] world_server_error)
      = Some (Ok [obj_email], w')
      /\ hubspot w' = []
      /\ trace w'
         = (trace (set_hubspot [Response 500 NoRetryAfter None]
                     world_server_error) ++ evs)%list
      /\ http_afters evs = [Some "100"]
      /\ sleeps evs = []
      /\ clock w'
         = clock (set_hubspot [Response 500 NoRetryAfter None]
                    world_server_error)
      /\ sync_state w'
         = sync_state (set_hubspot [Response 500 NoRetryAfter None]
                         world_server_error).
Proof.
  split; [reflexivity|]. split; [reflexivity|].
  apply (fetch_gives_up_with_partial_result 0 "contacts" (Some ["email"]) 100
           (Some 1700000000000000) (Some "100") [obj_email]
           (set_hubspot [Response 500 NoRetryAfter None] world_server_error)
           (Response 500 NoRetryAfter None) []); reflexivity.
Defined.

(** ** The watermark store, read after write *)

(** X8. Round trip of the watermark: when the two calls to the store go
    through, the time given to [update_sync_state] is the time that
    [get_last_sync_time] reads next for that object type, with the empty
    cursor; the watermarks of the other object types are not touched. *)
Theorem watermark_round_trip (object_type : string) (sync_time : Z)
    (w : World) :
  hd false (faults w) = false ->
  hd false (drop 1 (faults w)) = false ->
  exists w1 w2,
    update_sync_state object_type sync_time EmptyString w = Some (Ok tt, w1)
    /\ get_last_sync_time object_type w1
       = Some (Ok (sync_time, Some EmptyString), w2)
    /\ (forall other, other <> object_type ->
          sync_state w1 !! other = sync_state w !! other)
    /\ sync_state w2 = sync_state w1.
Proof.
  intros Hf1 Hf2.
  unfold update_sync_state, sync_state_upsert, get_last_sync_time,
    sync_state_select. run_goal.
  destruct w as [ck fl hs cat st tb fi tr]; simpl in *.
  destruct fl as [|[] [|[] fl]]; simpl in *; try discriminate;
    do 2 eexists; (split; [reflexivity|]); simpl;
    rewrite lookup_insert_eq; simpl;
    (split; [reflexivity|]);
    (split; [intros other Hne; by apply lookup_insert_ne|reflexivity]).
Qed.

Lemma watermark_round_trip_witness :
  hd false (faults world_deals_synced) = false
  /\ hd false (drop 1 (faults world_deals_synced)) = false
  /\ exists w1 w2,
      update_sync_state "contacts" 1700003600000000 EmptyString
        world_deals_synced = Some (Ok tt, w1)
      /\ get_last_sync_time "contacts" w1
         = Some (Ok (1700003600000000, Some EmptyString), w2)
      /\ (forall other, other <> "contacts" ->
            sync_state w1 !! other = sync_state world_deals_synced !! other)
      /\ sync_state w2 = sync_state w1.
Proof.
  split; [reflexivity|]. split; [reflexivity|].
  apply (watermark_round_trip "contacts" 1700003600000000 world_deals_synced);
    reflexivity.
Defined.

(** X9. A failed write of the watermark is swallowed: [update_sync_state]
    logs the error and returns, the store keeps what it held, and [main]
    has already logged the object type as processed; the next run reads
    the old watermark again. *)
Theorem failed_watermark_write_is_swallowed (object_type : string)
    (properties : list string) (w w1 : World) (fs : list bool) :
  export_object_type object_type (Some properties) 100
    (processing object_type w) = Some (Ok tt, w1) ->
  faults w1 = true :: fs ->
  exists w2,
    main_iteration object_type properties w = Some (Ok tt, w2)
    /\ sync_state w2 = sync_state w
    /\ outs (drop (length (trace w1)) (trace w2))
       = [MsgProcessed object_type; MsgErrUpdateState].
Proof.
  intros Hrun Hf. unfold main_iteration.
  unfold try_except at 1. unfold mbind, M_bind, bind, out, emit, now, gets.
  simpl. fold (processing object_type w). rewrite Hrun. simpl.
  unfold update_sync_state, sync_state_upsert. run_goal. rewrite Hf. simpl.
  eexists. split; [reflexivity|]. simpl. split.
  - apply (keeps_export_object_type _ _ _ _ _ _ Hrun).
  - rewrite <- !app_assoc, drop_app_length. reflexivity.
Qed.

Lemma failed_watermark_write_is_swallowed_witness :
  export_object_type "contacts" (Some ["email"]) 100
    (processing "contacts" world_write_fails)
  = Some (Ok tt, world_write_fails_exported)
  /\ faults world_write_fails_exported = true :: []
  /\ exists w2,
      main_iteration "contacts" ["email"] world_write_fails = Some (Ok tt, w2)
      /\ sync_state w2 = sync_state world_write_fails
      /\ outs (drop (length (trace world_write_fails_exported)) (trace w2))
         = [MsgProcessed "contacts"; MsgErrUpdateState].
Proof.
  assert (Hrun : export_object_type "contacts" (Some ["email"]) 100
                   (processing "contacts" world_write_fails)
                 = Some (Ok tt, world_write_fails_exported)).
  { vm_compute. reflexivity. }
  assert (Hf : faults world_write_fails_exported = true :: []).
  { vm_compute. reflexivity. }
  split; [exact Hrun|]. split; [exact Hf|].
  apply (failed_watermark_write_is_swallowed "contacts" ["email"]
           world_write_fails world_write_fails_exported [] Hrun Hf).
Defined.

(** ** Helpers that swallow their errors *)

Lemma nr_get_last_sync_time (object_type : string) :
  never_raises (get_last_sync_time object_type).
Proof. unfold get_last_sync_time. nr. Qed.

Lemma nr_check_supabase_table_exists (table_name : string) :
  never_raises (check_supabase_table_exists table_name).
Proof. unfold check_supabase_table_exists. nr. Qed.

Lemma nr_create_sync_state_table : never_raises create_sync_state_table.
Proof. unfold create_sync_state_table. nr. Qed.

Lemma nr_get_all_properties (object_type : string) :
  never_raises (get_all_properties object_type).
Proof. unfold get_all_properties. nr. Qed.

(** X10. The helpers around the cycle swallow every error of the services
    they call: reading the watermark, writing it, probing the table,
    creating the [sync_state] table and listing the properties never
    raise. *)
Theorem helpers_never_raise (object_type table_name : string) (sync_time : Z)
    (cursor : string) :
  never_raises (get_last_sync_time object_type)
  /\ never_raises (update_sync_state object_type sync_time cursor)
  /\ never_raises (check_supabase_table_exists table_name)
  /\ never_raises create_sync_state_table
  /\ never_raises (get_all_properties object_type).
Proof.
  repeat split;
    eauto using nr_get_last_sync_time, nr_update_sync_state,
      nr_check_supabase_table_exists, nr_create_sync_state_table,
      nr_get_all_properties.
Qed.

(** ** Batches *)

Lemma take_take_drop_app {A} (l : list A) (n m : nat) :
  (take n l ++ take m (drop n l))%list = take (n + m) l.
Proof.
  revert l. induction n as [|n IH]; intros l; [reflexivity|].
  destruct l as [|x l]; simpl.
  - by rewrite take_nil.
  - by rewrite IH.
Qed.

Lemma concat_slices (records : list Row) (batch_size count : nat) :
  concat (map (fun i => slice records i batch_size)
            (map (fun k => k * batch_size)%nat (seq 0 count)))
  = take (count * batch_size) records.
Proof.
  induction count as [|count IH]; [reflexivity|].
  rewrite seq_S, !map_app, concat_app, IH. simpl. rewrite app_nil_r.
  unfold slice. rewrite take_take_drop_app. f_equal. lia.
Qed.

Lemma batches_cover (n batch_size : nat) :
  batch_size <> 0%nat ->
  (n <= (n + batch_size - 1) / batch_size * batch_size)%nat.
Proof.
  intros Hbs.
  pose proof (Nat.div_mod_eq (n + batch_size - 1) batch_size) as Hdm.
  pose proof (Nat.mod_upper_bound (n + batch_size - 1) batch_size Hbs).
  nia.
Qed.

(** X11. The batches of the loader partition the records: for a positive
    batch size, the slices taken at the starts [0, batch_size, ...] put
    end to end are the records in their order; every batch has at least
    one record and at most [batch_size]; and there are
    [(len + batch_size - 1) // batch_size] of them, the [total_batches]
    that the log lines show. *)
Theorem batches_partition_records (records : list Row) (batch_size : nat) :
  batch_size <> 0%nat ->
  concat (map (fun i => slice records i batch_size)
            (range_step (length records) batch_size))
  = records
  /\ Forall (fun i => (0 < length (slice records i batch_size) <= batch_size)%nat)
       (range_step (length records) batch_size)
  /\ length (range_step (length records) batch_size)
     = ((length records + batch_size - 1) / batch_size)%nat.
Proof.
  intros Hbs. unfold range_step. split; [|split].
  - rewrite concat_slices. apply take_ge. by apply batches_cover.
  - apply Forall_forall. intros i Hi.
    apply list_elem_of_fmap in Hi as (k & -> & Hk).
    apply elem_of_seq in Hk. unfold slice.
    rewrite length_take, length_drop.
    assert (k * batch_size < length records)%nat; [|lia].
    destruct Hk as [_ Hk]. simpl in Hk.
    pose proof (Nat.div_mod_eq (length records + batch_size - 1) batch_size).
    pose proof (Nat.mod_upper_bound (length records + batch_size - 1)
                  batch_size Hbs).
    nia.
  - by rewrite length_map, length_seq.
Qed.

Lemma batches_partition_records_witness :
  2%nat <> 0%nat
  /\ concat (map (fun i => slice [row_ab; row_ac; row_a] i 2)
               (range_step (length [row_ab; row_ac; row_a]) 2))
     = [row_ab; row_ac; row_a]
  /\ Forall (fun i => (0 < length (slice [row_ab; row_ac; row_a] i 2) <= 2)%nat)
       (range_step (length [row_ab; row_ac; row_a]) 2)
  /\ length (range_step (length [row_ab; row_ac; row_a]) 2)
     = ((length [row_ab; row_ac; row_a] + 2 - 1) / 2)%nat.
Proof.
  split; [lia|].
  apply (batches_partition_records [row_ab; row_ac; row_a] 2). lia.
Defined.

(** ** Padding twice *)

Lemma all_keys_of_padded (batch : list Row) :
  batch <> [] ->
  all_keys_of (standardized_batch_of batch) = all_keys_of batch.
Proof.
  intros Hne. apply set_eq. intros key.
  rewrite elem_of_all_keys, standardized_batch_map. split.
  - intros (r & Hr & Hk). apply list_elem_of_fmap in Hr as (r0 & -> & _).
    apply elem_of_dom in Hk as [x Hx].
    rewrite standardized_record_lookup in Hx. by case_decide.
  - intros Hk. destruct batch as [|r0 batch]; [done|].
    exists (standardized_record (all_keys_of (r0 :: batch)) r0). split.
    + apply list_elem_of_fmap. exists r0. split; [reflexivity|left].
    + apply elem_of_dom. rewrite standardized_record_lookup.
      rewrite decide_True by done. by eexists.
Qed.

Lemma standardized_record_twice (all_keys : gset string) (record : Row) :
  standardized_record all_keys (standardized_record all_keys record)
  = standardized_record all_keys record.
Proof.
  apply map_eq. intros key. rewrite !standardized_record_lookup.
  case_decide as Hk; [|reflexivity]. f_equal. unfold record_get at 1.
  rewrite standardized_record_lookup. by rewrite decide_True.
Qed.

(** X12. Padding is idempotent: a batch that has been padded is already
    rectangular, and padding it again gives the same rows. *)
Theorem padding_is_idempotent (batch : list Row) :
  standardized_batch_of (standardized_batch_of batch)
  = standardized_batch_of batch.
Proof.
  destruct (decide (batch = [])) as [->|Hne]; [reflexivity|].
  rewrite (standardized_batch_map (standardized_batch_of batch)).
  rewrite all_keys_of_padded by done.
  rewrite (standardized_batch_map batch), <- list_fmap_compose.
  apply list_fmap_ext. intros i r _. apply standardized_record_twice.
Qed.

(** ** Sanitising twice *)

Lemma sanitize_char_twice (c : ascii) :
  PyStr.lower_char
    (SanitizeSpec.replace_non_alnum
       (PyStr.lower_char (SanitizeSpec.replace_non_alnum c)))
  = PyStr.lower_char (SanitizeSpec.replace_non_alnum c).
Proof. destruct c as [[] [] [] [] [] [] [] []]; reflexivity. Qed.

Lemma sanitize_twice (name : string) :
  SanitizeSpec.sanitize (SanitizeSpec.sanitize name) = SanitizeSpec.sanitize name.
Proof.
  induction name as [|c rest IH]; simpl; [reflexivity|].
  by rewrite sanitize_char_twice, IH.
Qed.

(** X13. On ASCII names sanitising is idempotent and keeps column names
    as they are: the column name of a property is again an ASCII name and
    is its own column name, at table creation and at flattening alike; so
    reading a column name back as a property name gives the same column. *)
Theorem sanitizing_is_idempotent (prop : string) :
  PyStr.is_ascii prop = true ->
  PyStr.is_ascii (col_name_flatten prop) = true
  /\ col_name_flatten (col_name_flatten prop) = col_name_flatten prop
  /\ col_name_create (col_name_create prop) = col_name_create prop
  /\ col_name_create (col_name_flatten prop) = col_name_flatten prop.
Proof.
  intros _. split.
  { rewrite col_name_flatten_spec.
    apply column_char_is_ascii, sanitize_column_chars. }
  repeat split;
    rewrite ?col_name_create_spec, ?col_name_flatten_spec,
      ?col_name_create_spec, ?col_name_flatten_spec;
    apply sanitize_twice.
Qed.

(** ** Records *)

Lemma omap_cons_Some {A B} (f : A -> option B) (x : A) (l : list A) (y : B) :
  f x = Some y -> omap f (x :: l) = y :: omap f l.
Proof.
  intros H.
  change (omap f (x :: l))
    with (match f x with Some y => y :: omap f l | None => omap f l end).
  by rewrite H.
Qed.

Lemma omap_cons_None {A B} (f : A -> option B) (x : A) (l : list A) :
  f x = None -> omap f (x :: l) = omap f l.
Proof.
  intros H.
  change (omap f (x :: l))
    with (match f x with Some y => y :: omap f l | None => omap f l end).
  by rewrite H.
Qed.

Lemma build_records_fold (object_type : string) (properties : list string)
    (objects : list SourceObj) :
  forall (records : list Row) (w : World),
  exists w',
    for_fold objects
      (fun records obj =>
         match build_record obj properties with
         | Ok record => ret (records ++ [record])%list
         | Raise e =>
             out (MsgErrRecord object_type (default PNone (o_id obj)));;
             ret records
         end)
      records w
    = Some (Ok (records ++ omap (record_of properties) objects)%list, w')
    /\ trace w'
       = (trace w
            ++ (EvOut <$> omap (skipped_line object_type properties) objects))%list
    /\ same_stores w w'
    /\ faults w' = faults w.
Proof.
  induction objects as [|obj objects IH]; intros records w; cbn [for_fold].
  - exists w. unfold ret. simpl. rewrite !app_nil_r.
    repeat split; reflexivity.
  - destruct (build_record obj properties) as [record|e] eqn:E.
    + rewrite (omap_cons_Some (record_of properties) obj objects record)
        by (unfold record_of; by rewrite E).
      rewrite (omap_cons_None (skipped_line object_type properties) obj objects)
        by (unfold skipped_line; by rewrite E).
      destruct (IH (records ++ [record])%list w) as (w' & Hrun & Htr & Hss & Hf).
      exists w'. rewrite <- app_assoc in Hrun.
      split; [exact Hrun|]. split; [exact Htr|]. by split.
    + rewrite (omap_cons_None (record_of properties) obj objects)
        by (unfold record_of; by rewrite E).
      rewrite (omap_cons_Some (skipped_line object_type properties) obj objects
                 (MsgErrRecord object_type (default PNone (o_id obj))))
        by (unfold skipped_line; by rewrite E).
      destruct (IH records
                  (set_trace
                     (trace w
                        ++ [EvOut (MsgErrRecord object_type
                                     (default PNone (o_id obj)))]) w))
        as (w' & Hrun & Htr & Hss & Hf).
      exists w'. split; [exact Hrun|]. split; [|split; [|exact Hf]].
      * rewrite Htr. rewrite fmap_cons. simpl. by rewrite <- app_assoc.
      * destruct Hss. by split.
Qed.

(** X14. The transformer drops what it cannot build and keeps the rest:
    [build_records] never raises; it gives the records that could be
    built, in the order of their objects, prints one line for each object
    that gave none, and touches nothing else; an object without id gives
    no record, and its line names no id. *)
Theorem bad_records_are_skipped (object_type : string)
    (properties : list string) (objects : list SourceObj) (w : World) :
  exists w',
    build_records object_type objects properties w
    = Some (Ok (omap (record_of properties) objects), w')
    /\ trace w'
       = (trace w
            ++ (EvOut <$> omap (skipped_line object_type properties) objects))%list
    /\ (forall obj,
          o_id obj = None ->
          record_of properties obj = None
          /\ skipped_line object_type properties obj
             = Some (MsgErrRecord object_type PNone))
    /\ same_stores w w'.
Proof.
  destruct (build_records_fold object_type properties objects [] w)
    as (w' & Hrun & Htr & Hss & _).
  exists w'. split; [exact Hrun|]. split; [exact Htr|].
  split; [|exact Hss].
  intros obj Hid. unfold record_of, skipped_line, build_record.
  by rewrite Hid.
Qed.

(** The records of a first page with one object without id between two
    good ones. *)
Example skip_object_without_id :
  match build_records "contacts" [obj_email; obj_no_id; obj_clash] ["email"]
          world_unprovisioned with
  | Some (Ok records, w') => Some (length records, outs (trace w'))
  | _ => None
  end
  = Some (2%nat, [MsgErrRecord "contacts" PNone]).
Proof. vm_compute. reflexivity. Qed.

(** ** The fields of a record *)

(** X15. The identity and metadata fields are copied as they are: for an
    object with an id, when no declared property with a value is named,
    once sanitised, like one of the five fixed keys, the record holds the
    id under [hubspot_id], [createdAt] and [updatedAt] under [created_at]
    and [updated_at] (null when absent), [archived] (false when absent)
    and the property map under [raw_properties]. *)
Theorem identity_fields_are_copied (obj : SourceObj) (properties : list string)
    (id : pyval) :
  o_id obj = Some id ->
  (forall p, p ∈ properties ->
             props_get (default ∅ (o_properties obj)) p <> PNone ->
             col_name_flatten p ∉ record_keys) ->
  exists record,
    build_record obj properties = Ok record
    /\ record !! "hubspot_id" = Some (Scalar id)
    /\ record !! "created_at" = Some (Scalar (default PNone (o_createdAt obj)))
    /\ record !! "updated_at" = Some (Scalar (default PNone (o_updatedAt obj)))
    /\ record !! "archived"
       = Some (Scalar (default (PBool false) (o_archived obj)))
    /\ record !! "raw_properties"
       = Some (Dict (default ∅ (o_properties obj))).
Proof.
  intros Hid Hfree. unfold build_record. rewrite Hid.
  eexists. split; [reflexivity|].
  set (props := default ∅ (o_properties obj)) in *.
  match goal with |- context [fold_left _ _ ?r] => set (record0 := r) end.
  assert (Hkeep : forall col, col ∈ record_keys ->
            fold_left
              (fun (record : Row) prop =>
                 let col_name := col_name_flatten prop in
                 let prop_value := props_get props prop in
                 match prop_value with
                 | PNone => record
                 | _ => <[col_name := Scalar (PStr (py_str prop_value))]> record
                 end) properties record0 !! col
            = record0 !! col).
  { intros col Hcol.
    destruct (flatten_fold_lookup props properties record0 col)
      as [Heq|(q & Hq & Hc & Hn & _)]; [exact Heq|].
    exfalso. apply (Hfree q Hq Hn). by rewrite Hc. }
  unfold record_keys in Hkeep.
  repeat split; (rewrite Hkeep by set_solver); subst record0;
    by simplify_map_eq.
Qed.

Lemma identity_fields_are_copied_witness :
  o_id obj_email = Some (PStr "1")
  /\ (forall p, p ∈ ["email"; "firstname"] ->
                props_get (default ∅ (o_properties obj_email)) p <> PNone ->
                col_name_flatten p ∉ record_keys)
  /\ exists record,
      build_record obj_email ["email"; "firstname"] = Ok record
      /\ record !! "hubspot_id" = Some (Scalar (PStr "1"))
      /\ record !! "created_at"
         = Some (Scalar (default PNone (o_createdAt obj_email)))
      /\ record !! "updated_at"
         = Some (Scalar (default PNone (o_updatedAt obj_email)))
      /\ record !! "archived"
         = Some (Scalar (default (PBool false) (o_archived obj_email)))
      /\ record !! "raw_properties"
         = Some (Dict (default ∅ (o_properties obj_email))).
Proof.
  assert (Hfree : forall p, p ∈ ["email"; "firstname"] ->
            props_get (default ∅ (o_properties obj_email)) p <> PNone ->
            col_name_flatten p ∉ record_keys).
  { intros p Hp _. apply elem_of_cons in Hp as [->|Hp];
      [|apply list_elem_of_singleton in Hp; subst p];
      apply (bool_decide_unpack _); vm_compute; exact I. }
  split; [reflexivity|]. split; [exact Hfree|].
  apply (identity_fields_are_copied obj_email ["email"; "firstname"]
           (PStr "1")); [reflexivity|exact Hfree].
Defined.

(** X16. Collisions after sanitising are not detected, and the later
    property wins: when a declared property has a value and no property
    declared after it with a value has the same sanitised name, its column
    holds its value as text, whatever the properties declared before it
    wrote there. *)
Theorem later_property_wins (obj : SourceObj) (before after : list string)
    (q : string) (id : pyval) :
  o_id obj = Some id ->
  props_get (default ∅ (o_properties obj)) q <> PNone ->
  (forall p, p ∈ after ->
             props_get (default ∅ (o_properties obj)) p <> PNone ->
             col_name_flatten p <> col_name_flatten q) ->
  exists record,
    build_record obj (before ++ q :: after) = Ok record
    /\ record !! col_name_flatten q
       = Some (Scalar (PStr (py_str (props_get (default ∅ (o_properties obj)) q)))).
Proof.
  intros Hid Hq Hafter. unfold build_record. rewrite Hid.
  eexists. split; [reflexivity|].
  set (props := default ∅ (o_properties obj)) in *.
  rewrite fold_left_app. cbn [fold_left].
  match goal with |- fold_left ?f after ?r1 !! _ = _ =>
    destruct (flatten_fold_lookup props after r1 (col_name_flatten q))
      as [Heq|(p & Hp & Hc & Hn & _)]
  end.
  - etransitivity; [exact Heq|].
    destruct (props_get props q) eqn:E; [done|..]; apply lookup_insert_eq.
  - exfalso. by apply (Hafter p Hp Hn).
Qed.

Lemma later_property_wins_witness :
  o_id obj_collision = Some (PStr "9")
  /\ props_get (default ∅ (o_properties obj_collision)) "lead_status" <> PNone
  /\ (forall p, p ∈ [] ->
                props_get (default ∅ (o_properties obj_collision)) p <> PNone ->
                col_name_flatten p <> col_name_flatten "lead_status")
  /\ exists record,
      build_record obj_collision (["Lead Status"] ++ "lead_status" :: [])
      = Ok record
      /\ record !! col_name_flatten "lead_status"
         = Some (Scalar (PStr (py_str (props_get
                                         (default ∅ (o_properties obj_collision))
                                         "lead_status")))).
Proof.
  assert (Hq : props_get (default ∅ (o_properties obj_collision)) "lead_status"
               <> PNone).
  { vm_compute. discriminate. }
  assert (Hafter : forall p, p ∈ [] ->
            props_get (default ∅ (o_properties obj_collision)) p <> PNone ->
            col_name_flatten p <> col_name_flatten "lead_status").
  { intros p Hp. by apply elem_of_nil in Hp. }
  split; [reflexivity|]. split; [exact Hq|]. split; [exact Hafter|].
  apply (later_property_wins obj_collision ["Lead Status"] [] "lead_status"
           (PStr "9")); [reflexivity|exact Hq|exact Hafter].
Defined.

(** The two properties of [obj_collision]: one column, the later value. *)
Example collision_keeps_later_value :
  match build_record obj_collision ["Lead Status"; "lead_status"] with
  | Ok record => record !! "lead_status"
  | Raise _ => None
  end = Some (Scalar (PStr "closed")).
Proof. vm_compute. reflexivity. Qed.

(** ** The script *)

(** X17. The CREATE TABLE script has the six fixed columns and then one
    [TEXT] column per declared property, its sanitised name between double
    quotes, in the order declared, one column per line; nothing removes a
    repeated name, so two properties with the same sanitised name give the
    same column definition twice, as for [Lead Status] and [lead_status]. *)
Theorem script_repeats_colliding_columns :
  let NL := String "010"%char EmptyString in
  let Q := String "034"%char EmptyString in
  let column := fun prop : string => Q ++ col_name_create prop ++ Q ++ " TEXT" in
  let columns := fun properties : list string =>
    ([ "id SERIAL PRIMARY KEY";
        "hubspot_id TEXT NOT NULL UNIQUE";
        "created_at TIMESTAMPTZ";
        "updated_at TIMESTAMPTZ";
        "archived BOOLEAN DEFAULT FALSE";
        "raw_properties JSONB" ]
       ++ map column properties)%list in
  (forall (table_name : string) (properties : list string),
      create_sql_of table_name properties
      = "CREATE TABLE " ++ table_name ++ " (" ++ NL ++ "    "
        ++ PyStr.join ("," ++ NL ++ "    ") (columns properties)
        ++ NL ++ ");"
      /\ length (columns properties) = (6 + length properties)%nat)
  /\ (forall (l1 l2 l3 : list string) (p q : string),
        col_name_create p = col_name_create q ->
        let properties := (l1 ++ p :: l2 ++ q :: l3)%list in
        columns properties !! (6 + length l1)%nat = Some (column p)
        /\ columns properties !! (6 + length l1 + 1 + length l2)%nat
           = Some (column p)
        /\ ~ NoDup (columns properties))
  /\ create_sql_of "hubspot_contacts" ["Lead Status"; "lead_status"]
     = "CREATE TABLE hubspot_contacts (" ++ NL
       ++ "    id SERIAL PRIMARY KEY," ++ NL
       ++ "    hubspot_id TEXT NOT NULL UNIQUE," ++ NL
       ++ "    created_at TIMESTAMPTZ," ++ NL
       ++ "    updated_at TIMESTAMPTZ," ++ NL
       ++ "    archived BOOLEAN DEFAULT FALSE," ++ NL
       ++ "    raw_properties JSONB," ++ NL
       ++ "    " ++ Q ++ "lead_status" ++ Q ++ " TEXT," ++ NL
       ++ "    " ++ Q ++ "lead_status" ++ Q ++ " TEXT" ++ NL
       ++ ");".
Proof.
  intros NL Q column columns.
  split; [|split; [|vm_compute; reflexivity]].
  - intros table_name properties. split; [apply create_sql_text|].
    unfold columns. rewrite length_app, length_map. reflexivity.
  - intros l1 l2 l3 p q Hcol properties.
    assert (H1 : columns properties !! (6 + length l1)%nat = Some (column p)).
    { unfold columns. rewrite lookup_app_r by (simpl; lia).
      cbn [length].
      replace (6 + length l1 - 6)%nat with (length l1) by lia.
      subst properties. rewrite map_app.
      rewrite lookup_app_r by (rewrite length_map; lia).
      rewrite length_map, Nat.sub_diag. reflexivity. }
    assert (H2 : columns properties !! (6 + length l1 + 1 + length l2)%nat
                 = Some (column p)).
    { unfold columns. rewrite lookup_app_r by (simpl; lia).
      cbn [length].
      replace (6 + length l1 + 1 + length l2 - 6)%nat
        with (length l1 + S (length l2))%nat by lia.
      subst properties. rewrite map_app.
      rewrite lookup_app_r by (rewrite length_map; lia).
      rewrite length_map.
      replace (length l1 + S (length l2) - length l1)%nat with (S (length l2))
        by lia.
      rewrite map_cons, <- lookup_tail. cbn [tail]. rewrite map_app.
      rewrite lookup_app_r by (rewrite length_map; lia).
      rewrite length_map, Nat.sub_diag. simpl. unfold column. by rewrite Hcol. }
    split; [exact H1|split; [exact H2|]].
    intros Hnd.
    pose proof (NoDup_lookup _ _ _ _ Hnd H1 H2). lia.
Qed.

Lemma script_repeats_colliding_columns_witness :
  col_name_create "Lead Status" = col_name_create "lead_status"
  /\ ~ NoDup
        ([ "id SERIAL PRIMARY KEY";
           "hubspot_id TEXT NOT NULL UNIQUE";
           "created_at TIMESTAMPTZ";
           "updated_at TIMESTAMPTZ";
           "archived BOOLEAN DEFAULT FALSE";
           "raw_properties JSONB" ]
           ++ map (fun prop : string =>
                     (String "034"%char EmptyString ++ col_name_create prop
                      ++ String "034"%char EmptyString ++ " TEXT")%string)
                ([] ++ "Lead Status" :: [] ++ "lead_status" :: []))%list.
Proof.
  assert (Hcol : col_name_create "Lead Status" = col_name_create "lead_status")
    by reflexivity.
  split; [exact Hcol|].
  pose proof script_repeats_colliding_columns as H. cbv zeta in H.
  destruct H as (_ & Hdup & _).
  apply (Hdup [] [] [] "Lead Status" "lead_status" Hcol).
Defined.

(** ** A cycle in which nothing fails *)

Lemma bind_ok {A B} (m : M A) (k : A -> M B) (w w1 : World) (a : A) :
  m w = Some (Ok a, w1) -> (m ≫= k) w = k a w1.
Proof. intros H. unfold mbind, M_bind, bind. by rewrite H. Qed.

Lemma ret_then {A B} (a : A) (k : A -> M B) (w : World) :
  (ret a ≫= k) w = k a w.
Proof. reflexivity. Qed.

Lemma upserts_quiet (evs : list Event) :
  Forall not_upsert evs -> upserts evs = [].
Proof.
  induction 1 as [|e evs He _ IH]; [reflexivity|].
  unfold upserts in *. unfold not_upsert in He.
  change (omap upsert_of (e :: evs))
    with (match upsert_of e with
          | Some y => y :: omap upsert_of evs
          | None => omap upsert_of evs
          end).
  by rewrite He.
Qed.

Lemma quiet_fetch_iteration (object_type : string)
    (properties : option (list string)) (limit : nat)
    (last_sync_time : option Z) (after : option string)
    (all_objects : list SourceObj) :
  emits not_upsert
    (fetch_iteration object_type properties limit last_sync_time after
       all_objects).
Proof. unfold fetch_iteration. emits; apply emits_sleep; done. Qed.

Lemma quiet_fetch_loop (object_type : string)
    (properties : option (list string)) (limit : nat)
    (last_sync_time : option Z) (fuel : nat) :
  forall (after : option string) (all_objects : list SourceObj),
    emits not_upsert
      (fetch_loop fuel object_type properties limit last_sync_time after
         all_objects).
Proof.
  induction fuel; intros after all_objects; cbn [fetch_loop]; [emits|].
  apply emits_bind; [apply quiet_fetch_iteration|].
  intros [objs [|after']]; [emits|apply IHfuel].
Qed.

Lemma quiet_get_hubspot_objects (object_type : string)
    (properties : option (list string)) (limit : nat)
    (last_sync_time : option Z) :
  emits not_upsert
    (get_hubspot_objects object_type properties limit last_sync_time).
Proof.
  unfold get_hubspot_objects.
  apply emits_bind; [emits|]. intros _. apply emits_bind; [emits|].
  intros replies. apply quiet_fetch_loop.
Qed.

Lemma get_hubspot_objects_pages (object_type : string)
    (properties : option (list string)) (limit : nat)
    (last_sync_time : option Z) (w : World)
    (pages : list (list SourceObj * string)) (final : Page)
    (retry_after : RetryAfter) (rest : list HttpReply) :
  Forall (fun p => p.2 <> EmptyString) pages ->
  is_last_page final = true ->
  hubspot w
  = ((page_reply <$> pages)
       ++ Response 200 retry_after (Some final) :: rest)%list ->
  exists w' evs,
    get_hubspot_objects object_type properties limit last_sync_time w
    = Some (Ok (concat pages.*1 ++ results final)%list, w')
    /\ hubspot w' = rest
    /\ trace w' = (trace w ++ evs)%list
    /\ upserts evs = []
    /\ clock w' = clock w /\ faults w' = faults w
    /\ sync_state w' = sync_state w /\ tables w' = tables w.
Proof.
  intros Hne Hlast Hh.
  assert (Hrun : exists w',
             get_hubspot_objects object_type properties limit last_sync_time w
             = Some (Ok (concat pages.*1 ++ results final)%list, w')
             /\ hubspot w' = rest
             /\ clock w' = clock w /\ faults w' = faults w
             /\ sync_state w' = sync_state w /\ tables w' = tables w).
  { unfold get_hubspot_objects. unfold out.
    rewrite emit_then. unfold mbind, M_bind, bind, gets. simpl. rewrite Hh.
    match goal with |- context [fetch_loop ?fuel _ _ _ _ _ _ ?w1] =>
      destruct (fetch_loop_pages object_type properties limit last_sync_time
                  pages fuel None [] w1 final retry_after rest)
        as (w' & evs & Hrun & Hrest & _ & _ & _ & Hck & Hf & Hst & Htb);
        [rewrite length_app, length_fmap; simpl; lia|done|done|exact Hh|]
    end.
    exists w'. by repeat split. }
  destruct Hrun as (w' & Hrun & Hrest & Hck & Hf & Hst & Htb).
  destruct (quiet_get_hubspot_objects _ _ _ _ _ _ _ Hrun) as (evs & Htr & Hq).
  exists w', evs. split; [exact Hrun|]. split; [exact Hrest|].
  split; [exact Htr|]. split; [by apply upserts_quiet|]. by repeat split.
Qed.

Lemma check_supabase_table_present (table_name : string) (w : World) :
  table_name ∈ tables w ->
  hd false (faults w) = false ->
  exists w', check_supabase_table_exists table_name w = Some (Ok true, w')
    /\ trace w' = (trace w ++ [EvProbe table_name true])%list
    /\ same_stores w w'
    /\ faults w' = drop 1 (faults w).
Proof.
  intros Htab Hf. unfold check_supabase_table_exists, table_probe. run_goal.
  destruct w as [ck fl hs cat st tb fi tr]; simpl in *.
  destruct fl as [|[] fl]; simpl in *; try discriminate;
    rewrite (bool_decide_eq_true_2 _ Htab); simpl;
    eexists; (split; [reflexivity|]); simpl;
    (split; [reflexivity|]); (split; [by split|reflexivity]).
Qed.

Lemma load_batch_no_fault (table_name : string) (records : list Row)
    (batch_size total_batches i : nat) (w : World) :
  faults w = [] ->
  exists w' evs,
    load_batch table_name records batch_size total_batches i w
    = Some (Ok tt, w')
    /\ trace w' = (trace w ++ evs)%list
    /\ upserts evs
       = [(standardized_batch_of (slice records i batch_size), true)]
    /\ faults w' = []
    /\ same_stores w w'.
Proof.
  intros Hf. unfold load_batch, table_upsert. run_goal. rewrite Hf. simpl.
  do 2 eexists. split; [reflexivity|]. simpl. rewrite <- !app_assoc.
  split; [reflexivity|]. split; [reflexivity|]. split; [exact Hf|by split].
Qed.

Lemma load_batches_no_fault (table_name : string) (records : list Row)
    (batch_size total_batches : nat) (starts : list nat) :
  forall w : World,
    faults w = [] ->
    exists w' evs,
      for_each starts (load_batch table_name records batch_size total_batches) w
      = Some (Ok tt, w')
      /\ trace w' = (trace w ++ evs)%list
      /\ upserts evs
         = (fun i => (standardized_batch_of (slice records i batch_size), true))
             <$> starts
      /\ faults w' = []
      /\ same_stores w w'.
Proof.
  induction starts as [|i starts IH]; intros w Hf; cbn [for_each].
  - exists w, []. unfold ret. rewrite app_nil_r.
    repeat split; try reflexivity; exact Hf.
  - destruct (load_batch_no_fault table_name records batch_size total_batches
                i w Hf) as (w1 & evs1 & Hrun1 & Htr1 & Hup1 & Hf1 & Hss1).
    destruct (IH w1 Hf1) as (w2 & evs2 & Hrun2 & Htr2 & Hup2 & Hf2 & Hss2).
    exists w2, (evs1 ++ evs2)%list.
    rewrite (bind_ok _ _ _ _ _ Hrun1).
    split; [exact Hrun2|]. split; [by rewrite Htr2, Htr1, <- app_assoc|].
    split; [by rewrite upserts_app, Hup1, Hup2|].
    split; [exact Hf2|by eapply same_stores_trans].
Qed.

Lemma range_step_nothing (batch_size : nat) :
  batch_size <> 0%nat -> range_step 0 batch_size = [].
Proof.
  intros Hbs. unfold range_step.
  replace ((0 + batch_size - 1) / batch_size)%nat with 0%nat; [reflexivity|].
  symmetry. apply Nat.div_small. lia.
Qed.

Lemma build_records_spec (object_type : string) (properties : list string)
    (objects : list SourceObj) (w : World) :
  exists w',
    build_records object_type objects properties w
    = Some (Ok (omap (record_of properties) objects), w')
    /\ trace w'
       = (trace w
            ++ (EvOut <$> omap (skipped_line object_type properties) objects))%list
    /\ same_stores w w'
    /\ faults w' = faults w.
Proof. apply (build_records_fold object_type properties objects [] w). Qed.

Lemma upserts_outs (msgs : list Msg) : upserts (EvOut <$> msgs) = [].
Proof. induction msgs; [reflexivity|exact IHmsgs]. Qed.

(** X18. A cycle in which nothing fails loads every record once: with the
    table present, no failing call and a fetch that ends on a last page,
    [export_object_type] from the table check on returns, and its upserts
    are exactly the bulk upserts of the padded batches of the records
    built from all the pages, in order, each succeeding; no row is
    upserted on its own, the replies after the last page are left unread
    and the watermark store is not written. *)
Theorem clean_cycle_loads_every_batch (object_type : string) (t : Z)
    (properties : list string) (batch_size : nat) (w : World)
    (pages : list (list SourceObj * string)) (final : Page)
    (retry_after : RetryAfter) (rest : list HttpReply) :
  ("hubspot_" ++ object_type) ∈ tables w ->
  faults w = [] ->
  batch_size <> 0%nat ->
  Forall (fun p => p.2 <> EmptyString) pages ->
  is_last_page final = true ->
  hubspot w
  = ((page_reply <$> pages)
       ++ Response 200 retry_after (Some final) :: rest)%list ->
  let records :=
    omap (record_of properties) (concat pages.*1 ++ results final)%list in
  exists w' evs,
    export_properties object_type ("hubspot_" ++ object_type) t properties
      batch_size w = Some (Ok tt, w')
    /\ trace w' = (trace w ++ evs)%list
    /\ upserts evs
       = (fun i => (standardized_batch_of (slice records i batch_size), true))
           <$> range_step (length records) batch_size
    /\ hubspot w' = rest
    /\ sync_state w' = sync_state w.
Proof.
  intros Htab Hf Hbs Hne Hlast Hh records. unfold export_properties.
  destruct (check_supabase_table_present ("hubspot_" ++ object_type) w Htab)
    as (w1 & Hck & Htr1 & Hss1 & Hf1); [by rewrite Hf|].
  rewrite Hf in Hf1. simpl in Hf1.
  rewrite (bind_ok _ _ _ _ _ Hck). cbn [negb].
  set (w2 := set_trace
               (trace w1 ++ [EvOut (MsgTableExists ("hubspot_" ++ object_type))])
               w1).
  assert (Hstep : (out (MsgTableExists ("hubspot_" ++ object_type));; ret true) w1
                  = Some (Ok true, w2)) by reflexivity.
  rewrite (bind_ok _ _ _ _ _ Hstep). cbn [negb].
  destruct (get_hubspot_objects_pages object_type (Some properties) batch_size
              (Some t) w2 pages final retry_after rest Hne Hlast)
    as (w3 & evs3 & Hfetch & Hrest & Htr3 & Hup3 & _ & Hf3 & Hst3 & _).
  { simpl. by rewrite (ss_hubspot _ _ Hss1). }
  rewrite (bind_ok _ _ _ _ _ Hfetch).
  simpl in Hf3. rewrite Hf1 in Hf3. simpl in Hst3.
  rewrite (ss_sync_state _ _ Hss1) in Hst3.
  assert (Htr2 : trace w2
                 = (trace w
                      ++ [EvProbe ("hubspot_" ++ object_type) true;
                          EvOut (MsgTableExists ("hubspot_" ++ object_type))])%list).
  { simpl. rewrite Htr1, <- app_assoc. reflexivity. }
  set (evs2 := [EvProbe ("hubspot_" ++ object_type) true;
                EvOut (MsgTableExists ("hubspot_" ++ object_type))]) in Htr2.
  assert (Hup2 : upserts evs2 = []) by reflexivity.
  clearbody evs2.
  subst records.
  remember (concat pages.*1 ++ results final)%list as objs eqn:Eobj.
  destruct objs as [|obj objects].
  { (* nothing fetched *)
    eexists. exists (evs2 ++ evs3 ++ [EvOut (MsgNoObjects object_type)])%list.
    split; [reflexivity|]. simpl. split.
    { rewrite Htr3, Htr2, <- !app_assoc. reflexivity. }
    split; [|by split].
    rewrite (range_step_nothing _ Hbs), !upserts_app, Hup2, Hup3.
    reflexivity. }
  destruct (build_records_spec object_type properties (obj :: objects) w3)
    as (w4 & Hbuild & Htr4 & Hss4 & Hf4).
  rewrite (bind_ok _ _ _ _ _ Hbuild).
  rewrite Hf3 in Hf4.
  set (evs4 := EvOut <$> omap (skipped_line object_type properties)
                           (obj :: objects)) in Htr4.
  assert (Hup4 : upserts evs4 = []) by apply upserts_outs.
  clearbody evs4.
  remember (omap (record_of properties) (obj :: objects)) as recs eqn:Erec.
  destruct recs as [|record records].
  { (* no record built *)
    eexists.
    exists (evs2 ++ evs3 ++ evs4 ++ [EvOut (MsgNoRecords object_type)])%list.
    split; [reflexivity|]. simpl. split.
    { rewrite Htr4, Htr3, Htr2, <- !app_assoc. reflexivity. }
    split; [|split; [by rewrite (ss_hubspot _ _ Hss4)
                    |by rewrite (ss_sync_state _ _ Hss4)]].
    rewrite (range_step_nothing _ Hbs), !upserts_app, Hup2, Hup3, Hup4.
    reflexivity. }
  unfold load_records. rewrite decide_False by done.
  destruct (load_batches_no_fault ("hubspot_" ++ object_type)
              (record :: records) batch_size
              ((length (record :: records) + batch_size - 1) / batch_size)%nat
              (range_step (length (record :: records)) batch_size) w4 Hf4)
    as (w5 & evs5 & Hload & Htr5 & Hup5 & _ & Hss5).
  exists w5, (evs2 ++ evs3 ++ evs4 ++ evs5)%list.
  split; [exact Hload|]. split.
  { rewrite Htr5, Htr4, Htr3, Htr2, <- !app_assoc. reflexivity. }
  split; [|split].
  - rewrite !upserts_app, Hup2, Hup3, Hup4, Hup5. reflexivity.
  - by rewrite (ss_hubspot _ _ Hss5), (ss_hubspot _ _ Hss4).
  - by rewrite (ss_sync_state _ _ Hss5), (ss_sync_state _ _ Hss4).
Qed.

Lemma clean_cycle_loads_every_batch_witness :
  (("hubspot_" ++ "contacts") ∈ tables world_two_pages)
  /\ faults world_two_pages = []
  /\ 1%nat <> 0%nat
  /\ Forall (fun p : list SourceObj * string => p.2 <> EmptyString)
       [([obj_email], "100")]
  /\ is_last_page second_page = true
  /\ hubspot world_two_pages
     = ((page_reply <$> [([obj_email], "100")])
          ++ Response 200 NoRetryAfter (Some second_page) :: [])%list
  /\ exists w' evs,
      export_properties "contacts" ("hubspot_" ++ "contacts")
        1700000000000000 ["email"] 1 world_two_pages = Some (Ok tt, w')
      /\ trace w' = (trace world_two_pages ++ evs)%list
      /\ upserts evs
         = (fun i =>
              (standardized_batch_of
                 (slice (omap (record_of ["email"])
                           (concat [([obj_email], "100")].*1
                              ++ results second_page)%list) i 1), true))
             <$> range_step
                   (length (omap (record_of ["email"])
                              (concat [([obj_email], "100")].*1
                                 ++ results second_page)%list)) 1
      /\ hubspot w' = []
      /\ sync_state w' = sync_state world_two_pages.
Proof.
  assert (Htab : ("hubspot_" ++ "contacts") ∈ tables world_two_pages).
  { apply (bool_decide_unpack _). vm_compute. exact I. }
  assert (Hne : Forall (fun p : list SourceObj * string => p.2 <> EmptyString)
                  [([obj_email], "100")]).
  { apply Forall_singleton. simpl. discriminate. }
  split; [exact Htab|]. split; [reflexivity|]. split; [lia|].
  split; [exact Hne|]. split; [reflexivity|]. split; [reflexivity|].
  apply (clean_cycle_loads_every_batch "contacts" 1700000000000000 ["email"] 1
           world_two_pages [([obj_email], "100")] second_page NoRetryAfter []
           Htab); [reflexivity|lia|exact Hne|reflexivity|reflexivity].
Defined.

(** ** A probe that fails *)

(** X19. A probe that raises is read as a missing table: whether or not
    the table exists, when the call of [check_supabase_table_exists]
    fails the cycle writes the CREATE TABLE script and stops there; no
    page is requested and no row is upserted. *)
Theorem failed_probe_reads_as_missing_table (object_type table_name : string)
    (t : Z) (properties : list string) (batch_size : nat) (w : World)
    (fs : list bool) :
  faults w = true :: fs ->
  let create_sql := create_sql_of table_name properties in
  let sql_filename := "create_" ++ table_name ++ ".sql" in
  exists w' ok,
    ok = negb (hd false fs)
    /\ export_properties object_type table_name t properties batch_size w
       = Some ((if ok : bool then Ok tt else Raise OSError), w')
    /\ trace w'
       = (trace w ++ [EvProbe table_name false;
                      EvOut (MsgPleaseExecute table_name create_sql);
                      EvWriteFile sql_filename create_sql ok]
            ++ (if ok then [EvOut (MsgSqlSaved sql_filename)] else []))%list
    /\ hubspot w' = hubspot w
    /\ (ok = true -> files w' !! sql_filename = Some create_sql).
Proof.
  intros Hf create_sql sql_filename.
  unfold export_properties, check_supabase_table_exists, table_probe,
    create_supabase_table, file_write. run_goal.
  fold create_sql. fold sql_filename. rewrite Hf. simpl.
  destruct w as [ck fl hs cat st tb fi tr]; simpl in *.
  destruct fs as [|[] fs]; simpl;
    do 2 eexists; (split; [reflexivity|]); (split; [reflexivity|]); simpl;
    rewrite <- ?app_assoc; simpl;
    (split; [reflexivity|]); (split; [reflexivity|]);
    intros; try discriminate; apply lookup_insert_eq.
Qed.

Lemma failed_probe_reads_as_missing_table_witness :
  faults world_probe_fails = true :: []
  /\ (("hubspot_" ++ "contacts") ∈ tables world_probe_fails)
  /\ exists w' ok,
      ok = negb (hd false [])
      /\ export_properties "contacts" ("hubspot_" ++ "contacts")
           1700000000000000 ["email"] 100 world_probe_fails
         = Some ((if ok : bool then Ok tt else Raise OSError), w')
      /\ trace w'
         = (trace world_probe_fails
              ++ [EvProbe ("hubspot_" ++ "contacts") false;
                  EvOut (MsgPleaseExecute ("hubspot_" ++ "contacts")
                           (create_sql_of ("hubspot_" ++ "contacts") ["email"]));
                  EvWriteFile ("create_" ++ ("hubspot_" ++ "contacts") ++ ".sql")
                    (create_sql_of ("hubspot_" ++ "contacts") ["email"]) ok]
              ++ (if ok
                  then [EvOut (MsgSqlSaved
                                 ("create_" ++ ("hubspot_" ++ "contacts")
                                    ++ ".sql"))]
                  else []))%list
      /\ hubspot w' = hubspot world_probe_fails
      /\ (ok = true ->
          files w' !! ("create_" ++ ("hubspot_" ++ "contacts") ++ ".sql")
          = Some (create_sql_of ("hubspot_" ++ "contacts") ["email"])).
Proof.
  split; [reflexivity|]. split.
  { apply (bool_decide_unpack _). vm_compute. exact I. }
  apply (failed_probe_reads_as_missing_table "contacts"
           ("hubspot_" ++ "contacts") 1700000000000000 ["email"] 100
           world_probe_fails []).
  reflexivity.
Defined.

(** ** Discovery of the properties *)

(** X20. With no declared list, a cycle whose discovery of the properties
    fails, or finds none, stops before the table check: it returns
    without probing the table, requesting a page or upserting a row, and
    the request for the properties is the only call to HubSpot. *)
Theorem failed_discovery_ends_cycle (object_type : string) (batch_size : nat)
    (w : World) :
  hd false (drop 2 (faults w)) = true
  \/ default [] (catalog w !! object_type) = [] ->
  exists w' evs,
    export_object_type object_type None batch_size w = Some (Ok tt, w')
    /\ trace w' = (trace w ++ evs)%list
    /\ Forall (fun e => match e with
                        | EvProbe _ _ | EvHttpGet _ _ _ _ _ _ | EvUpsert _ _ _
                        | EvWriteFile _ _ _ | EvUpsertState _ _ _ => False
                        | _ => True
                        end) evs
    /\ MsgNoProperties object_type ∈ outs evs
    /\ hubspot w' = hubspot w
    /\ sync_state w' = sync_state w.
Proof.
  intros Hcase.
  unfold export_object_type, create_sync_state_table, supabase_rpc,
    get_last_sync_time, sync_state_select, get_all_properties, properties_get.
  run_goal.
  destruct w as [ck fl hs cat st tb fi tr]; simpl in *.
  destruct fl as [|[] [|[] [|[] fl]]]; simpl in *;
    try (destruct (st !! object_type) as [[[t|] c u]|]; simpl);
    try (destruct Hcase as [Hcase|Hcase]; [discriminate|]);
    try (destruct Hcase as [_|Hcase]);
    try rewrite Hcase; simpl;
    do 2 eexists; (split; [reflexivity|]); simpl;
    rewrite <- ?app_assoc; simpl;
    (split; [reflexivity|]);
    (split; [repeat constructor|]);
    (split; [unfold outs; simpl; set_solver|split; reflexivity]).
Qed.

Lemma failed_discovery_ends_cycle_witness :
  (hd false (drop 2 (faults world_no_discovery)) = true
   \/ default [] (catalog world_no_discovery !! "contacts") = [])
  /\ exists w' evs,
      export_object_type "contacts" None 100 world_no_discovery
      = Some (Ok tt, w')
      /\ trace w' = (trace world_no_discovery ++ evs)%list
      /\ Forall (fun e => match e with
                          | EvProbe _ _ | EvHttpGet _ _ _ _ _ _
                          | EvUpsert _ _ _ | EvWriteFile _ _ _
                          | EvUpsertState _ _ _ => False
                          | _ => True
                          end) evs
      /\ MsgNoProperties "contacts" ∈ outs evs
      /\ hubspot w' = hubspot world_no_discovery
      /\ sync_state w' = sync_state world_no_discovery.
Proof.
  assert (Hcase : hd false (drop 2 (faults world_no_discovery)) = true
                  \/ default [] (catalog world_no_discovery !! "contacts") = []).
  { left. reflexivity. }
  split; [exact Hcase|].
  apply (failed_discovery_ends_cycle "contacts" 100 world_no_discovery Hcase).
Defined.

(** ** The loader as a whole *)

(** X21. For a positive batch size the loader never raises and attempts
    every batch: whatever upserts fail, the bulk upsert of the padded rows
    of each batch is sent. *)
Theorem loader_attempts_every_batch (table_name : string)
    (records : list Row) (batch_size : nat) (w : World) :
  batch_size <> 0%nat ->
  exists w' evs,
    load_records table_name records batch_size w = Some (Ok tt, w')
    /\ trace w' = (trace w ++ evs)%list
    /\ forall i, i ∈ range_step (length records) batch_size ->
         exists ok,
           EvUpsert table_name
             (standardized_batch_of (slice records i batch_size)) ok ∈ evs.
Proof. apply load_records_attempts_every_batch. Qed.

Lemma loader_attempts_every_batch_witness :
  1%nat <> 0%nat
  /\ exists w' evs,
      load_records "hubspot_contacts" [row_ab; row_ac; row_a] 1
        world_bulk_fails = Some (Ok tt, w')
      /\ trace w' = (trace world_bulk_fails ++ evs)%list
      /\ forall i, i ∈ range_step (length [row_ab; row_ac; row_a]) 1 ->
           exists ok,
             EvUpsert "hubspot_contacts"
               (standardized_batch_of (slice [row_ab; row_ac; row_a] i 1)) ok
             ∈ evs.
Proof.
  split; [lia|].
  apply (loader_attempts_every_batch "hubspot_contacts"
           [row_ab; row_ac; row_a] 1 world_bulk_fails).
  lia.
Defined.

(** ** What advances the watermark *)

(** X22. The provisioning gate still advances the watermark: with the
    table missing and no failing call, one turn of the loop of [main]
    fetches and loads nothing, and leaves the current time as the stored
    watermark of the object type. *)
Theorem provisioning_gate_advances_watermark (object_type : string)
    (properties : list string) (w : World) :
  ("hubspot_" ++ object_type) ∉ tables w ->
  faults w = [] ->
  exists w2,
    main_iteration object_type properties w = Some (Ok tt, w2)
    /\ sync_state w2 !! object_type = Some (watermark_at (clock w))
    /\ upserts (drop (length (trace w)) (trace w2)) = []
    /\ http_replies (drop (length (trace w)) (trace w2)) = [].
Proof. apply missing_table_advances_watermark. Qed.

Lemma provisioning_gate_advances_watermark_witness :
  (("hubspot_" ++ "contacts") ∉ tables world_unprovisioned)
  /\ faults world_unprovisioned = []
  /\ exists w2,
      main_iteration "contacts" ["email"] world_unprovisioned = Some (Ok tt, w2)
      /\ sync_state w2 !! "contacts"
         = Some (watermark_at (clock world_unprovisioned))
      /\ upserts (drop (length (trace world_unprovisioned)) (trace w2)) = []
      /\ http_replies (drop (length (trace world_unprovisioned)) (trace w2))
         = [].
Proof.
  assert (Hmiss : ("hubspot_" ++ "contacts") ∉ tables world_unprovisioned).
  { simpl. apply not_elem_of_empty. }
  split; [exact Hmiss|]. split; [reflexivity|].
  apply (provisioning_gate_advances_watermark "contacts" ["email"]
           world_unprovisioned Hmiss).
  reflexivity.
Defined.

(** X23. A rejected token still advances the watermark: with the table
    present and no failing call to Supabase, when HubSpot answers 401 to
    the first request of a cycle, [main] logs the object type as
    processed and stores the current time as its watermark. *)
Theorem rejected_token_advances_watermark (object_type : string)
    (properties : list string) (w : World) (retry_after : RetryAfter)
    (body : option Page) (rest : list HttpReply) :
  ("hubspot_" ++ object_type) ∈ tables w ->
  faults w = [] ->
  hubspot w = Response 401 retry_after body :: rest ->
  exists w2,
    main_iteration object_type properties w = Some (Ok tt, w2)
    /\ sync_state w2 !! object_type = Some (watermark_at (clock w))
    /\ MsgProcessed object_type ∈ outs (trace w2).
Proof. apply unauthorized_advances_watermark. Qed.

Lemma rejected_token_advances_watermark_witness :
  (("hubspot_" ++ "contacts") ∈ tables world_unauthorized_at_once)
  /\ faults world_unauthorized_at_once = []
  /\ hubspot world_unauthorized_at_once = Response 401 NoRetryAfter None :: []
  /\ exists w2,
      main_iteration "contacts" ["email"] world_unauthorized_at_once
      = Some (Ok tt, w2)
      /\ sync_state w2 !! "contacts"
         = Some (watermark_at (clock world_unauthorized_at_once))
      /\ MsgProcessed "contacts" ∈ outs (trace w2).
Proof.
  assert (Htab : ("hubspot_" ++ "contacts") ∈ tables world_unauthorized_at_once).
  { apply (bool_decide_unpack _). vm_compute. exact I. }
  split; [exact Htab|]. split; [reflexivity|]. split; [reflexivity|].
  apply (rejected_token_advances_watermark "contacts" ["email"]
           world_unauthorized_at_once NoRetryAfter None [] Htab);
    reflexivity.
Defined.

(** ** The statements about whole computations, on concrete runs *)

Lemma fetch_never_raises_witness :
  get_hubspot_objects "contacts" (Some ["email"]) 100 (Some 1700000000000000)
    world_fetch_aborts
  = Some (Ok [obj_email], world_fetch_aborts_fetched)
  /\ exists a, Ok [obj_email] = Ok a.
Proof.
  assert (Hrun : get_hubspot_objects "contacts" (Some ["email"]) 100
                   (Some 1700000000000000) world_fetch_aborts
                 = Some (Ok [obj_email], world_fetch_aborts_fetched)).
  { vm_compute. reflexivity. }
  split; [exact Hrun|].
  apply (fetch_never_raises "contacts" (Some ["email"]) 100
           (Some 1700000000000000) world_fetch_aborts (Ok [obj_email])
           world_fetch_aborts_fetched Hrun).
Defined.

Lemma fetch_requests_carry_watermark_witness :
  get_hubspot_objects "contacts" (Some ["email"]) 100 (Some 1700000000000000)
    world_fetch_aborts
  = Some (Ok [obj_email], world_fetch_aborts_fetched)
  /\ exists evs,
      trace world_fetch_aborts_fetched = (trace world_fetch_aborts ++ evs)%list
      /\ Forall (page_request_of "contacts" (Some ["email"]) 100
                   (Some 1700000000000000)) evs.
Proof.
  assert (Hrun : get_hubspot_objects "contacts" (Some ["email"]) 100
                   (Some 1700000000000000) world_fetch_aborts
                 = Some (Ok [obj_email], world_fetch_aborts_fetched)).
  { vm_compute. reflexivity. }
  split; [exact Hrun|].
  apply (fetch_requests_carry_watermark "contacts" (Some ["email"]) 100
           (Some 1700000000000000) world_fetch_aborts (Ok [obj_email])
           world_fetch_aborts_fetched Hrun).
Defined.

Lemma cycle_stays_in_object_type_witness :
  export_object_type "contacts" (Some ["email"]) 100 world_two_pages
  = Some (Ok tt, world_two_pages_exported)
  /\ (exists evs,
        trace world_two_pages_exported = (trace world_two_pages ++ evs)%list
        /\ Forall (cycle_event_of "contacts") evs)
  /\ sync_state world_two_pages_exported = sync_state world_two_pages.
Proof.
  assert (Hrun : export_object_type "contacts" (Some ["email"]) 100
                   world_two_pages
                 = Some (Ok tt, world_two_pages_exported)).
  { vm_compute. reflexivity. }
  split; [exact Hrun|]. split.
  - apply (proj1 (cycle_stays_in_object_type "contacts" (Some ["email"]) 100)
             world_two_pages (Ok tt) world_two_pages_exported Hrun).
  - apply (proj2 (cycle_stays_in_object_type "contacts" (Some ["email"]) 100)
             world_two_pages (Ok tt) world_two_pages_exported Hrun).
Defined.

Lemma helpers_never_raise_witness :
  get_last_sync_time "contacts" world_store_down
  = Some (Ok (clock world_store_down - one_day, Some EmptyString),
          world_store_down_read)
  /\ exists a,
      Ok (clock world_store_down - one_day, Some EmptyString) = Ok a.
Proof.
  assert (Hrun : get_last_sync_time "contacts" world_store_down
                 = Some (Ok (clock world_store_down - one_day,
                             Some EmptyString), world_store_down_read)).
  { vm_compute. reflexivity. }
  split; [exact Hrun|].
  apply (proj1 (helpers_never_raise "contacts" "hubspot_contacts" 0 EmptyString)
           world_store_down _ world_store_down_read Hrun).
Defined.

Lemma column_name_sanitization_witness :
  PyStr.is_ascii "Lead Status!" = true
  /\ col_name_flatten "Lead Status!" = SanitizeSpec.sanitize "Lead Status!"
  /\ col_name_create "Lead Status!" = col_name_flatten "Lead Status!"
  /\ String.length (col_name_flatten "Lead Status!")
     = String.length "Lead Status!".
Proof.
  assert (Hascii : PyStr.is_ascii "Lead Status!" = true) by reflexivity.
  split; [exact Hascii|].
  destruct (proj1 column_name_sanitization "Lead Status!" Hascii)
    as (Hspec & Hsame & Hlen & _).
  split; [exact Hspec|]. split; [exact Hsame | exact Hlen].
Defined.

Lemma sanitizing_is_idempotent_witness :
  PyStr.is_ascii "Lead Status!" = true
  /\ col_name_flatten (col_name_flatten "Lead Status!")
     = col_name_flatten "Lead Status!".
Proof.
  assert (Hascii : PyStr.is_ascii "Lead Status!" = true) by reflexivity.
  split; [exact Hascii|].
  apply (proj1 (proj2 (sanitizing_is_idempotent "Lead Status!" Hascii))).
Defined.
